(** * Heuristic section extraction of [extract.py]: a shallow embedding

    The Python module reads a PDF, normalises its text, locates the title and
    the sections by regular expressions, optionally merges the answer of a
    language model over the result and validates the final mapping against
    the [DocumentInfo] schema.

    Python strings are sequences of code points: a [str] is a [list N].
    The functions of the [re] module are embedded as a backtracking matcher
    over a small regular-expression syntax that covers every pattern of the
    module.  What Python takes from the Unicode character database
    ([str.lower], the class [\d], [str.isdigit]) is a parameter of the
    development, and so is [json.loads]. *)

From Stdlib Require Import ZArith NArith Ascii String Floats.
From Stdlib.Strings Require Import Byte.
From stdpp Require Import base option list gmap.

#[local] Open Scope nat_scope.

(** ** Strings *)

Abbreviation str := (list N).

(** A Rocq string literal (ASCII) as a Python string. *)
Definition cps (s : string) : str :=
  map N_of_ascii (list_ascii_of_string s).

Definition NL : N := 10%N.
Definition SP : N := 32%N.

Definition in_range (lo hi c : N) : bool := ((lo <=? c) && (c <=? hi))%N.

(** [Py_UNICODE_ISSPACE]: the characters [str.strip] removes and the class
    [\s] of a [str] pattern matches. *)
Definition isspace (c : N) : bool :=
  in_range 9 13 c || in_range 28 32 c || (c =? 133)%N || (c =? 160)%N
  || (c =? 5760)%N || in_range 8192 8202 c || (c =? 8232)%N || (c =? 8233)%N
  || (c =? 8239)%N || (c =? 8287)%N || (c =? 12288)%N.

Fixpoint drop_while (p : N → bool) (s : str) : str :=
  match s with
  | [] => []
  | c :: s' => if p c then drop_while p s' else s
  end.

Definition lstrip (s : str) : str := drop_while isspace s.
Definition rstrip (s : str) : str := reverse (drop_while isspace (reverse s)).
(** [s.strip()] *)
Definition strip (s : str) : str := rstrip (lstrip s).

(** [s.split('\n')]-style splitting on one separator character: the pieces
    between the separators, empty pieces included. *)
Fixpoint split_on (sep : N) (s : str) : list str :=
  match s with
  | [] => [[]]
  | c :: s' =>
      if (c =? sep)%N then [] :: split_on sep s'
      else match split_on sep s' with
           | [] => [[c]]
           | l :: ls => (c :: l) :: ls
           end
  end.

(** [sep.join(parts)] *)
Fixpoint join (sep : str) (parts : list str) : str :=
  match parts with
  | [] => []
  | [p] => p
  | p :: ps => p ++ sep ++ join sep ps
  end.

Fixpoint starts_with (p s : str) : bool :=
  match p, s with
  | [], _ => true
  | _ :: _, [] => false
  | a :: p', b :: s' => (a =? b)%N && starts_with p' s'
  end.

(** [needle in hay] *)
Fixpoint contains (needle hay : str) : bool :=
  starts_with needle hay ||
  match hay with
  | [] => false
  | _ :: hay' => contains needle hay'
  end.

(** [s.find(c)] for a one-character needle: the first index, or -1. *)
Fixpoint find_from (c : N) (s : str) (i : Z) : Z :=
  match s with
  | [] => (-1)%Z
  | x :: s' => if (x =? c)%N then i else find_from c s' (i + 1)%Z
  end.
Definition str_find (c : N) (s : str) : Z := find_from c s 0%Z.

(** [s.rfind(c)]: the last index, or -1. *)
Fixpoint rfind_from (c : N) (s : str) (i : Z) (last : Z) : Z :=
  match s with
  | [] => last
  | x :: s' => rfind_from c s' (i + 1)%Z (if (x =? c)%N then i else last)
  end.
Definition str_rfind (c : N) (s : str) : Z := rfind_from c s 0%Z (-1)%Z.

(** [s[a:b]] for indices that are not negative. *)
Definition slice (s : str) (a b : nat) : str := take (b - a) (drop a s).

(** [s[:n]] for any integer [n]: a negative [n] counts from the end. *)
Definition slice_to (s : str) (n : Z) : str :=
  if (0 <=? n)%Z then take (Z.to_nat n) s
  else take (length s - Z.to_nat (- n)) s.

(** ** Regular expressions

    The fragment of [re] syntax the module uses: literals, character
    classes, concatenation, ordered alternation and the greedy [*].  [r+] is
    [r r*] and [r?] is [r|ε]. *)

Inductive regex : Type :=
| Eps
| Chr (c : N)
| Cls (p : N → bool)
| Seq (r1 r2 : regex)
| Alt (r1 r2 : regex)
| Star (r : regex).

Definition Plus (r : regex) : regex := Seq r (Star r).
Definition Opt (r : regex) : regex := Alt r Eps.

(** The concatenation of the characters of a literal. *)
Fixpoint lit (s : str) : regex :=
  match s with
  | [] => Eps
  | [c] => Chr c
  | c :: s' => Seq (Chr c) (lit s')
  end.

Definition or_else {A} (x y : option A) : option A :=
  match x with Some _ => x | None => y end.

(** The iterations of a greedy [*] whose body is matched by [body]: one
    more iteration first, the continuation [k] when that fails.  An
    iteration that consumes nothing is refused, so [length s] iterations are
    all a [*] can make on [s]. *)
Fixpoint star_loop {A} (body : str → (str → option A) → option A)
    (k : str → option A) (n : nat) (s : str) : option A :=
  match n with
  | 0 => k s
  | S n' =>
      or_else
        (body s (λ s', if length s' <? length s then star_loop body k n' s' else None))
        (k s)
  end.

(** The backtracking matcher, in continuation-passing style: [rmatch r s k]
    matches [r] at the head of [s] and hands the rest of the text to [k];
    when [k] refuses, the next alternative in priority order is tried. *)
Fixpoint rmatch {A} (r : regex) (s : str) (k : str → option A) : option A :=
  match r with
  | Eps => k s
  | Chr c =>
      match s with
      | x :: s' => if (x =? c)%N then k s' else None
      | [] => None
      end
  | Cls p =>
      match s with
      | x :: s' => if p x then k s' else None
      | [] => None
      end
  | Seq r1 r2 => rmatch r1 s (λ s', rmatch r2 s' k)
  | Alt r1 r2 => or_else (rmatch r1 s k) (rmatch r2 s k)
  | Star r1 => star_loop (rmatch r1) k (length s) s
  end.

(** The length of the match of [r] at the head of [s].  With [must_advance]
    the empty match is refused (the matcher backtracks over it), as [re]
    does at the position where the previous match was empty. *)
Definition re_match_at (r : regex) (must_advance : bool) (s : str) : option nat :=
  rmatch r s (λ s',
    if must_advance && (length s' =? length s) then None
    else Some (length s - length s')).

(** The leftmost match in [s], as (start, end) counted from [i]. *)
Fixpoint search_from (r : regex) (must_advance : bool) (s : str) (i : nat)
  : option (nat * nat) :=
  match re_match_at r must_advance s with
  | Some len => Some (i, i + len)
  | None =>
      match s with
      | [] => None
      | _ :: s' => search_from r false s' (S i)
      end
  end.

(** [re.search(pattern, s)]: the span of the first match. *)
Definition re_search (r : regex) (s : str) : option (nat * nat) :=
  search_from r false s 0.

(** The loop of [re.sub]: copy the text before the match, put the
    replacement, go on behind the match. *)
Fixpoint sub_loop (fuel : nat) (r : regex) (repl : str) (must_advance : bool)
    (s : str) : str :=
  match fuel with
  | 0 => s
  | S fuel' =>
      match search_from r must_advance s 0 with
      | None => s
      | Some (i, j) =>
          take i s ++ repl ++ sub_loop fuel' r repl (bool_decide (i = j)) (drop j s)
      end
  end.

(** [re.sub(pattern, repl, s)] for a replacement without group references. *)
Definition re_sub (r : regex) (repl : str) (s : str) : str :=
  sub_loop (2 * length s + 2) r repl false s.

(** The loop of [re.findall] for a pattern without groups: the matched
    substrings, left to right, not overlapping. *)
Fixpoint findall_loop (fuel : nat) (r : regex) (must_advance : bool) (s : str)
  : list str :=
  match fuel with
  | 0 => []
  | S fuel' =>
      match search_from r must_advance s 0 with
      | None => []
      | Some (i, j) =>
          slice s i j :: findall_loop fuel' r (bool_decide (i = j)) (drop j s)
      end
  end.

Definition re_findall (r : regex) (s : str) : list str :=
  findall_loop (2 * length s + 2) r false s.

(** ** What Python takes from the Unicode character database *)

Class UnicodeData := {
  (** [str.lower] (it may change the length of a string) *)
  lower : str → str;
  (** the class [\d] of a [str] pattern: the decimal digits of any script *)
  isdecimal : N → bool;
  (** the test [str.isdigit] makes on each character *)
  isdigit_char : N → bool
}.

Definition ch (a : ascii) : N := N_of_ascii a.

Definition ascii_lower_char (c : N) : N :=
  if in_range (ch "A") (ch "Z") c then (c + 32)%N else c.
Definition ascii_upper_char (c : N) : N :=
  if in_range (ch "a") (ch "z") c then (c - 32)%N else c.

(** The tables restricted to ASCII: on an ASCII text they agree with
    Python's, and they are what the examples below run with. *)
Definition ascii_data : UnicodeData := {|
  lower := map ascii_lower_char;
  isdecimal := in_range (ch "0") (ch "9");
  isdigit_char := in_range (ch "0") (ch "9")
|}.

Definition one_of (set : str) (c : N) : bool := existsb (N.eqb c) set.

(** A letter of a pattern compiled with [re.IGNORECASE]: it matches the
    characters whose lower case is the letter's, that is both cases of the
    letter, and for i, k and s the four characters U+0130, U+0131, U+212A
    and U+017F as well. *)
Definition ci_char (c x : N) : bool :=
  let l := ascii_lower_char c in
  (x =? l)%N || (x =? ascii_upper_char l)%N
  || ((l =? ch "i")%N && ((x =? 304)%N || (x =? 305)%N))
  || ((l =? ch "k")%N && (x =? 8490)%N)
  || ((l =? ch "s")%N && (x =? 383)%N).

Fixpoint lit_ci (s : str) : regex :=
  match s with
  | [] => Eps
  | [c] => Cls (ci_char c)
  | c :: s' => Seq (Cls (ci_char c)) (lit_ci s')
  end.

(** [r'\nword\n'] *)
Definition heading (word : string) : regex := lit (NL :: cps word ++ [NL]).

Section Extract.
Context {U : UnicodeData}.

(** ** Step 2: the text normalizer *)

(** [r'\s+'] *)
Definition whitespace_run : regex := Plus (Cls isspace).
(** [r'\n\d+\n'] *)
Definition page_number : regex := Seq (Chr NL) (Seq (Plus (Cls isdecimal)) (Chr NL)).

Definition hex_digit (c : N) : bool :=
  in_range (ch "0") (ch "9") c || in_range (ch "a") (ch "f") c
  || in_range (ch "A") (ch "F") c.

(** [(?:[a-zA-Z]|[0-9]|[$-_@.&+]|[!*\\(\\),]|(?:%[0-9a-fA-F][0-9a-fA-F]))] *)
Definition url_char : regex :=
  Alt (Cls (λ c, in_range (ch "a") (ch "z") c || in_range (ch "A") (ch "Z") c))
 (Alt (Cls (in_range (ch "0") (ch "9")))
 (Alt (Cls (λ c, in_range (ch "$") (ch "_") c || one_of (cps "@.&+") c))
 (Alt (Cls (one_of (cps "!*\(),")))
      (Seq (Chr (ch "%")) (Seq (Cls hex_digit) (Cls hex_digit)))))).

(** [r'http[s]?://(?:...)+'] *)
Definition url : regex :=
  Seq (lit (cps "http")) (Seq (Opt (Chr (ch "s"))) (Seq (lit (cps "://")) (Plus url_char))).

(** [r'\S+@\S+'] *)
Definition email : regex :=
  Seq (Plus (Cls (λ c, negb (isspace c))))
      (Seq (Chr (ch "@")) (Plus (Cls (λ c, negb (isspace c))))).

(** [r'\n+'] *)
Definition newline_run : regex := Plus (Chr NL).

Definition clean_pdf_text (raw_text : str) : str :=
  (* Remove extra whitespace and normalize *)
  let text := re_sub whitespace_run [SP] raw_text in
  (* Remove page numbers and headers/footers *)
  let text := re_sub page_number [NL] text in
  (* Remove URLs and email addresses *)
  let text := re_sub url [] text in
  let text := re_sub email [] text in
  (* Clean up extra newlines *)
  let text := re_sub newline_run [NL] text in
  strip text.

(** ** Step 3: the extractors *)

Definition nonempty (s : str) : bool :=
  match s with [] => false | _ => true end.

Definition title_not_found : str := cps "Document title not found".

(** ['issn', 'doi', '©', 'page', 'volume'] *)
Definition skip_markers : list str :=
  [cps "issn"; cps "doi"; [169%N]; cps "page"; cps "volume"].

(** The [for line in lines[:20]] loop of [extract_title]. *)
Fixpoint title_loop (lines : list str) : str :=
  match lines with
  | [] => title_not_found
  | line :: rest =>
      if existsb (λ skip, contains skip (lower line)) skip_markers
      then title_loop rest
      else if 10 <? length line then line
      else title_loop rest
  end.

(** [[line.strip() for line in text.split('\n') if line.strip()]] *)
Definition stripped_lines (text : str) : list str :=
  List.filter nonempty (map strip (split_on NL text)).

Definition extract_title (text : str) : str :=
  title_loop (take 20 (stripped_lines text)).

(** [r'\n[A-Z][A-Z\s]+\n'] *)
Definition caps_heading : regex :=
  Seq (Chr NL)
 (Seq (Cls (in_range (ch "A") (ch "Z")))
 (Seq (Plus (Cls (λ c, in_range (ch "A") (ch "Z") c || isspace c)))
      (Chr NL))).

Definition end_patterns : list regex :=
  [caps_heading; heading "references"; heading "conclusion"; heading "discussion"].

(** The [for end_pattern in end_patterns] loop: [rest_lower] is
    [text_lower[start_pos:]] and [end_pos] the position found so far. *)
Fixpoint find_end (pats : list regex) (rest_lower : str) (start_pos end_pos : nat)
  : nat :=
  match pats with
  | [] => end_pos
  | end_pattern :: pats' =>
      match re_search end_pattern rest_lower with
      | Some (i, _) => start_pos + i
      | None => find_end pats' rest_lower start_pos end_pos
      end
  end.

(** [text[start_pos:end_pos].strip()] for the match that ends at
    [start_pos]. *)
Definition section_at (text text_lower : str) (start_pos : nat) : str :=
  let end_pos := find_end end_patterns (drop start_pos text_lower) start_pos (length text) in
  strip (slice text start_pos end_pos).

(** The [for pattern in patterns] loop. *)
Fixpoint section_loop (text text_lower : str) (patterns : list regex) (max_chars : Z)
  : option str :=
  match patterns with
  | [] => None
  | pattern :: patterns' =>
      match re_search pattern text_lower with
      | Some (_, start_pos) =>
          let section := section_at text text_lower start_pos in
          if nonempty section then Some (slice_to section max_chars) else None
      | None => section_loop text text_lower patterns' max_chars
      end
  end.

Definition extract_section_by_pattern (text : str) (patterns : list regex)
    (max_chars : Z) : option str :=
  section_loop text (lower text) patterns max_chars.

(** [line.isdigit()] *)
Definition isdigit (s : str) : bool := nonempty s && forallb isdigit_char s.

Definition ref_patterns : list regex :=
  [heading "references"; heading "bibliography"; heading "citations"].

Definition extract_references (text : str) : option str :=
  match extract_section_by_pattern text ref_patterns 1500 with
  | Some ref_text =>
      if nonempty ref_text then
        let refs :=
          List.filter (λ line, (20 <? length line) && negb (isdigit line))
                      (map strip (split_on NL ref_text)) in
        Some (join (cps "; ") (take 5 refs))
      else None
  | None => None
  end.

(** [r'<word>\d+[:.][^\.]*\.'] under [re.IGNORECASE]; [word] ends with the
    blank before the number. *)
Definition figure_pattern (word : string) : regex :=
  Seq (lit_ci (cps word))
 (Seq (Plus (Cls isdecimal))
 (Seq (Cls (one_of (cps ":.")))
 (Seq (Star (Cls (λ c, negb (c =? ch ".")%N)))
      (Chr (ch "."))))).

Definition figure_patterns : list regex :=
  [figure_pattern "Figure "; figure_pattern "Fig. ";
   figure_pattern "Table "; figure_pattern "Image "].

Definition extract_figures_and_images (text : str) : option str :=
  let figure_info := concat (map (λ pattern, re_findall pattern text) figure_patterns) in
  match figure_info with
  | [] => None
  | _ => Some (join (cps "; ") (take 10 figure_info))
  end.

End Extract.

(** ** Python values and mappings *)

#[local] Set Warnings "-register-all".

(** The values a mapping of this module holds: the strings and [None] of
    the heuristics and whatever [json.loads] or a model function delivers,
    [bytes] and [bytearray] objects among them.  A [dict] with string keys
    is a [gmap]. *)
Inductive pyval : Type :=
| VNone
| VBool (b : bool)
| VInt (n : Z)
| VFloat (f : float)
| VStr (s : str)
| VBytes (b : list byte)
| VByteArray (b : list byte)
| VList (l : list pyval)
| VDict (d : gmap str pyval).

Abbreviation dict := (gmap str pyval).

(** [bool(value)] *)
Definition truthy (v : pyval) : bool :=
  match v with
  | VNone => false
  | VBool b => b
  | VInt n => negb (n =? 0)%Z
  | VFloat f => negb (f =? 0)%float
  | VStr s => nonempty s
  | VBytes b | VByteArray b => match b with [] => false | _ => true end
  | VList l => match l with [] => false | _ => true end
  | VDict d => match map_to_list d with [] => false | _ => true end
  end.

(** [value != "null"] *)
Definition not_null_string (v : pyval) : bool :=
  match v with
  | VStr s => negb (bool_decide (s = cps "null"))
  | _ => true
  end.

Definition of_option (o : option str) : pyval :=
  match o with Some s => VStr s | None => VNone end.

(** [x if x else default] for an optional string [x] *)
Definition or_default (x : option str) (default : str) : str :=
  match x with
  | Some s => if nonempty s then s else default
  | None => default
  end.

Section Structure.
Context {U : UnicodeData}.

Definition intro_patterns : list regex :=
  [heading "introduction"; heading "abstract"; heading "summary"; heading "background"].
Definition thought_patterns : list regex :=
  [heading "methods"; heading "methodology"; heading "approach"; heading "discussion"].
Definition answer_patterns : list regex :=
  [heading "results"; heading "findings"; heading "conclusion"; heading "outcome"].
Definition limitation_patterns : list regex :=
  [heading "limitations"; heading "future work"; heading "future research"].

Definition intro_not_found : str := cps "Introduction section not found in document".
Definition thoughts_not_found : str := cps "Methods/Discussion section not found in document".
Definition answers_not_found : str := cps "Results/Conclusions section not found in document".

Definition extract_document_structure (clean_text : str) : dict :=
  let extracted_data : dict := ∅ in
  (* Required fields *)
  let extracted_data := <[cps "document" := VStr (extract_title clean_text)]> extracted_data in
  let intro := extract_section_by_pattern clean_text intro_patterns 1500 in
  let extracted_data :=
    <[cps "Introduction" := VStr (or_default intro intro_not_found)]> extracted_data in
  let thoughts := extract_section_by_pattern clean_text thought_patterns 1500 in
  let extracted_data :=
    <[cps "Thoughts" := VStr (or_default thoughts thoughts_not_found)]> extracted_data in
  let answers := extract_section_by_pattern clean_text answer_patterns 1500 in
  let extracted_data :=
    <[cps "Answers" := VStr (or_default answers answers_not_found)]> extracted_data in
  (* Optional fields *)
  let extracted_data :=
    <[cps "Further_Reading" := of_option (extract_references clean_text)]> extracted_data in
  let extracted_data :=
    <[cps "Images" := of_option (extract_figures_and_images clean_text)]> extracted_data in
  let limitations := extract_section_by_pattern clean_text limitation_patterns 1000 in
  <[cps "Further_Development" := of_option limitations]> extracted_data.

End Structure.

(** ** Step 4: validation against the schema *)

Record DocumentInfo := {
  document : str;
  Introduction : str;
  Thoughts : str;
  Answers : str;
  Hallmarks : option str;
  Further_Reading : option str;
  Images : option str;
  Further_Development : option str;
  Thoughts_I : option str;
  Answers_I : option str;
  Answers_II : option str;
  Further_Thoughts : option str;
  Ependymoma : option str
}.

(** The error kinds of the schema: a required field is not there
    ([missing]), a value is not a string ([string_type]), bytes that are
    not UTF-8 ([string_unicode]). *)
Inductive field_error := Missing | StringType | StringUnicode.

(** The exceptions that derive from [Exception]: what [except Exception]
    catches. *)
Inductive Exception :=
| ValidationError (errors : list (str * field_error))
| ValueError (msg : str)
| JSONDecodeError
| AttributeError
| OtherError (msg : str).

(** The exceptions that derive from [BaseException] alone: [except
    Exception] lets them through. *)
Inductive BaseException := KeyboardInterrupt | SystemExit | GeneratorExit.

(** What a call raises. *)
Inductive raised :=
| Exc (e : Exception)
| Base (b : BaseException).

Coercion Exc : Exception >-> raised.
#[local] Arguments inl {A B}%_type_scope & a.

Abbreviation result A := (raised + A)%type.

(** [bytes.decode('utf-8')] under the strict error handler, which is how
    the schema reads [bytes] and [bytearray] given for a string: the code
    points, or nothing where the bytes are not UTF-8 (a stray or missing
    continuation byte, an overlong form, a surrogate, a value above
    U+10FFFF). *)
Definition continuation (b : N) : bool := in_range 128 191 b.

Fixpoint utf8_decode_N (bs : list N) : option str :=
  match bs with
  | [] => Some []
  | b0 :: rest =>
      if (b0 <? 128)%N then
        match utf8_decode_N rest with
        | Some s => Some (b0 :: s)
        | None => None
        end
      else if in_range 194 223 b0 then
        match rest with
        | b1 :: rest1 =>
            if continuation b1 then
              match utf8_decode_N rest1 with
              | Some s => Some (((b0 - 192) * 64 + (b1 - 128))%N :: s)
              | None => None
              end
            else None
        | _ => None
        end
      else if in_range 224 239 b0 then
        match rest with
        | b1 :: b2 :: rest2 =>
            let c := ((b0 - 224) * 4096 + (b1 - 128) * 64 + (b2 - 128))%N in
            if continuation b1 && continuation b2
               && (2048 <=? c)%N && negb (in_range 55296 57343 c) then
              match utf8_decode_N rest2 with
              | Some s => Some (c :: s)
              | None => None
              end
            else None
        | _ => None
        end
      else if in_range 240 244 b0 then
        match rest with
        | b1 :: b2 :: b3 :: rest3 =>
            let c := ((b0 - 240) * 262144 + (b1 - 128) * 4096
                      + (b2 - 128) * 64 + (b3 - 128))%N in
            if continuation b1 && continuation b2 && continuation b3
               && in_range 65536 1114111 c then
              match utf8_decode_N rest3 with
              | Some s => Some (c :: s)
              | None => None
              end
            else None
        | _ => None
        end
      else None
  end.

Definition utf8_decode (b : list byte) : option str :=
  utf8_decode_N (map Byte.to_N b).

Definition required_fields : list str :=
  [cps "document"; cps "Introduction"; cps "Thoughts"; cps "Answers"].
Definition optional_fields : list str :=
  [cps "Hallmarks"; cps "Further_Reading"; cps "Images"; cps "Further_Development";
   cps "Thoughts_I"; cps "Answers_I"; cps "Answers_II"; cps "Further_Thoughts";
   cps "Ependymoma"].

(** A value given for a field of type [str]: a string as it is, [bytes]
    and [bytearray] decoded as UTF-8, nothing else. *)
Definition str_of_value (value : pyval) : field_error + str :=
  match value with
  | VStr s => inr s
  | VBytes b | VByteArray b =>
      match utf8_decode b with
      | Some s => inr s
      | None => inl StringUnicode
      end
  | _ => inl StringType
  end.

(** [name: str = Field(...)] *)
Definition required_str (data : dict) (name : str) : field_error + str :=
  match data !! name with
  | None => inl Missing
  | Some value => str_of_value value
  end.

(** [name: Optional[str] = Field(None)] *)
Definition optional_str (data : dict) (name : str) : field_error + option str :=
  match data !! name with
  | None | Some VNone => inr None
  | Some value =>
      match str_of_value value with
      | inr s => inr (Some s)
      | inl e => inl e
      end
  end.

Definition error_of {A} (name : str) (r : field_error + A) : list (str * field_error) :=
  match r with inl e => [(name, e)] | inr _ => [] end.

(** Every field is checked and every error reported; a key that is no
    field of the schema is ignored. *)
Definition field_errors (data : dict) : list (str * field_error) :=
  concat (map (λ name, error_of name (required_str data name)) required_fields)
  ++ concat (map (λ name, error_of name (optional_str data name)) optional_fields).

Definition get_str (data : dict) (name : string) : str :=
  match required_str data (cps name) with inr s => s | inl _ => [] end.
Definition get_opt (data : dict) (name : string) : option str :=
  match optional_str data (cps name) with inr o => o | inl _ => None end.

(** The construction of a [DocumentInfo] from the keys of [extracted_data]. *)
Definition create_document_info (extracted_data : dict) : result DocumentInfo :=
  match field_errors extracted_data with
  | [] =>
      inr {| document := get_str extracted_data "document";
             Introduction := get_str extracted_data "Introduction";
             Thoughts := get_str extracted_data "Thoughts";
             Answers := get_str extracted_data "Answers";
             Hallmarks := get_opt extracted_data "Hallmarks";
             Further_Reading := get_opt extracted_data "Further_Reading";
             Images := get_opt extracted_data "Images";
             Further_Development := get_opt extracted_data "Further_Development";
             Thoughts_I := get_opt extracted_data "Thoughts_I";
             Answers_I := get_opt extracted_data "Answers_I";
             Answers_II := get_opt extracted_data "Answers_II";
             Further_Thoughts := get_opt extracted_data "Further_Thoughts";
             Ependymoma := get_opt extracted_data "Ependymoma" |}
  | errors => inl (ValidationError errors)
  end.

(** ** The enhancement merge *)

Definition prompt_head : str := cps "
Analyze this document and extract information in JSON format. Return ONLY valid JSON.

Required fields:
- document: Document title
- Introduction: Introduction or summary  
- Thoughts: Main thoughts, insights, methodology
- Answers: Key findings, results, conclusions

Optional fields (use null if not found):
- Hallmarks: Key characteristics
- Further_Reading: References or recommended reading
- Images: Description of figures/tables/images
- Further_Development: Future work, limitations, next steps
- Thoughts_I: Additional thoughts part I
- Answers_I: Additional answers part I  
- Answers_II: Additional answers part II
- Further_Thoughts: Further considerations
- Ependymoma: Any ependymoma-related content

Document text:
".
Definition prompt_tail : str := cps "

Return only the JSON object:
".

Definition create_llm_prompt (clean_text : str) : str :=
  prompt_head ++ clean_text ++ prompt_tail.

Definition bind {A B} (x : result A) (f : A → result B) : result B :=
  match x with inl e => inl e | inr a => f a end.
Notation "'let!' x ':=' e1 'in' e2" := (bind e1 (λ x, e2))
  (at level 10, x name, e1 at level 100, e2 at level 200).

(** [try: body except Exception: handler]: what derives from
    [BaseException] alone is not caught. *)
Definition try_except {A} (body : result A) (handler : Exception → result A) : result A :=
  match body with
  | inl (Exc e) => handler e
  | inl (Base b) => inl (Base b)
  | inr a => inr a
  end.

Section Enhance.
(** [json.loads] *)
Variable json_loads : str → result pyval.

(** The text between the first opening and the last closing brace. *)
Definition json_content (llm_response : str) : result str :=
  let json_start := str_find (ch "{") llm_response in
  let json_end := (str_rfind (ch "}") llm_response + 1)%Z in
  if negb (json_start =? -1)%Z && negb (json_end =? -1)%Z
  then inr (slice llm_response (Z.to_nat json_start) (Z.to_nat json_end))
  else inl (ValueError (cps "No valid JSON found in LLM response")).

(** [llm_data.items()] *)
Definition items (llm_data : pyval) : result (list (str * pyval)) :=
  match llm_data with
  | VDict d => inr (map_to_list d)
  | _ => inl AttributeError
  end.

(** The merge loop: the values of the model win when they are truthy and
    not the string "null". *)
Definition merge (extracted_data : dict) (llm_items : list (str * pyval)) : dict :=
  foldl (λ enhanced_data '(key, value),
           if truthy value && not_null_string value
           then <[key := value]> enhanced_data
           else enhanced_data)
        extracted_data llm_items.

(** The first half of the [try] block: call the model and parse what it
    says. *)
Definition model_data (clean_text : str) (llm_function : str → result pyval)
  : result pyval :=
  let prompt := create_llm_prompt clean_text in
  let! llm_response := llm_function prompt in
  match llm_response with
  (* isinstance(llm_response, str) *)
  | VStr s => let! json_text := json_content s in json_loads json_text
  | _ => inr llm_response
  end.

(** The body of the [try] block. *)
Definition enhance_body (extracted_data : dict) (clean_text : str)
    (llm_function : str → result pyval) : result dict :=
  let! llm_data := model_data clean_text llm_function in
  let! llm_items := items llm_data in
  inr (merge extracted_data llm_items).

Definition enhance_with_llm (extracted_data : dict) (clean_text : str)
    (llm_function : option (str → result pyval)) : result dict :=
  match llm_function with
  | None => inr extracted_data
  | Some f =>
      try_except (enhance_body extracted_data clean_text f)
                 (λ _, inr extracted_data)
  end.

(** The pipeline, behind the PDF reader: [read_pdf_file] is what the reader
    returned or raised. *)
Definition extract_document_info {U : UnicodeData} (read_pdf_file : result str)
    (use_llm : bool) (llm_function : option (str → result pyval))
  : result DocumentInfo :=
  let! raw_text := read_pdf_file in
  let clean_text := clean_pdf_text raw_text in
  let extracted_data := extract_document_structure clean_text in
  let! extracted_data :=
    if use_llm && bool_decide (is_Some llm_function)
    then enhance_with_llm extracted_data clean_text llm_function
    else inr extracted_data in
  create_document_info extracted_data.

End Enhance.

(** ** The specification of the title, in its own words

    The first line among the first 20 non-empty trimmed lines that holds no
    skip marker and is longer than 10 characters, or the sentinel. *)
Section TitleSpec.
Context {U : UnicodeData}.

Definition has_marker (line : str) : bool :=
  existsb (λ marker, contains marker (lower line)) skip_markers.

Definition qualifies (line : str) : bool :=
  negb (has_marker line) && (10 <? length line).

Definition title_spec (text : str) : str :=
  match List.find qualifies (take 20 (stripped_lines text)) with
  | Some line => line
  | None => title_not_found
  end.

End TitleSpec.

(** ** An instance of [json.loads] to run the examples with

    [json.loads] on the objects whose keys and values are strings without
    escapes and whose values may also be integers, [true], [false] and
    [null].  Python's decoder accepts more (nesting, arrays, escapes,
    fractions); this one answers a decoding error there, so the examples
    stay inside its fragment. *)

Definition QUOTE : N := 34%N.
Definition BACKSLASH : N := 92%N.

(** A literal in which the apostrophe stands for the double quote. *)
Definition quoted (s : string) : str :=
  map (λ c, if (c =? ch "'")%N then QUOTE else c) (cps s).

Definition json_space (c : N) : bool := one_of [32; 9; 10; 13]%N c.

Definition skip_space (s : str) : str := drop_while json_space s.

(** The characters up to the closing quote. *)
Fixpoint scan_string (s : str) : option (str * str) :=
  match s with
  | [] => None
  | c :: s' =>
      if (c =? QUOTE)%N then Some ([], s')
      else if (c =? BACKSLASH)%N || (c <? 32)%N then None
      else match scan_string s' with
           | Some (body, rest) => Some (c :: body, rest)
           | None => None
           end
  end.

Fixpoint scan_digits (s : str) : str * str :=
  match s with
  | c :: s' =>
      if in_range (ch "0") (ch "9") c
      then let '(ds, rest) := scan_digits s' in (c :: ds, rest)
      else ([], s)
  | [] => ([], [])
  end.

Definition digits_value (ds : str) : Z :=
  foldl (λ acc d, (10 * acc + Z.of_N (d - ch "0"))%Z) 0%Z ds.

Definition scan_int (s : str) : option (pyval * str) :=
  let '(negative, s1) :=
    match s with
    | c :: s' => if (c =? ch "-")%N then (true, s') else (false, s)
    | [] => (false, s)
    end in
  let '(ds, rest) := scan_digits s1 in
  let fraction :=
    match rest with
    | c :: _ => one_of (cps ".eE") c
    | [] => false
    end in
  match ds with
  | [] => None
  | d :: ds' =>
      if ((d =? ch "0")%N && nonempty ds') || fraction then None
      else Some (VInt (if negative then - digits_value ds else digits_value ds)%Z, rest)
  end.

Definition scan_value (s : str) : option (pyval * str) :=
  match s with
  | [] => None
  | c :: s' =>
      if (c =? QUOTE)%N then
        match scan_string s' with
        | Some (body, rest) => Some (VStr body, rest)
        | None => None
        end
      else if starts_with (cps "null") s then Some (VNone, drop 4 s)
      else if starts_with (cps "true") s then Some (VBool true, drop 4 s)
      else if starts_with (cps "false") s then Some (VBool false, drop 5 s)
      else scan_int s
  end.

(** The members of an object behind its opening brace; [s] starts at a
    key. *)
Fixpoint scan_members (fuel : nat) (s : str) (acc : dict) : option (dict * str) :=
  match fuel, s with
  | S fuel', c :: s1 =>
      if (c =? QUOTE)%N then
        match scan_string s1 with
        | Some (key, s2) =>
            match skip_space s2 with
            | c2 :: s3 =>
                if (c2 =? ch ":")%N then
                  match scan_value (skip_space s3) with
                  | Some (value, s4) =>
                      match skip_space s4 with
                      | c4 :: s5 =>
                          if (c4 =? ch ",")%N
                          then scan_members fuel' (skip_space s5) (<[key := value]> acc)
                          else if (c4 =? ch "}")%N
                          then Some (<[key := value]> acc, s5)
                          else None
                      | [] => None
                      end
                  | None => None
                  end
                else None
            | [] => None
            end
        | None => None
        end
      else None
  | _, _ => None
  end.

Definition json_loads_flat (s : str) : result pyval :=
  match skip_space s with
  | c :: s1 =>
      if (c =? ch "{")%N then
        let parsed :=
          match skip_space s1 with
          | c1 :: s2 =>
              if (c1 =? ch "}")%N then Some (∅, s2)
              else scan_members (length s) (skip_space s1) ∅
          | [] => None
          end in
        match parsed with
        | Some (d, rest) =>
            if nonempty (skip_space rest) then inl JSONDecodeError
            else inr (VDict d)
        | None => inl JSONDecodeError
        end
      else inl JSONDecodeError
  | [] => inl JSONDecodeError
  end.

(** ** Example inputs *)

(** The raw text of the example scenario. *)
Definition example_raw : str := cps "ISSN 1234

Introduction
This paper studies X.

Methods
We did Y.

Results
We found Z.

References
1. Smith et al., 2020, a long citation line over twenty chars.
".

(** A text that keeps its lines, with a heading in capitals behind the
    introduction. *)
Definition example_caps : str := cps "A study of X in Y
Introduction
This paper studies X.
MATERIALS AND METHODS
We did Y.
".

(** A model that answers with prose around a JSON object. *)
Definition example_model (prompt : str) : result pyval :=
  inr (VStr (quoted "Here is the result: {'document': 'A study of X', 'Hallmarks': 'null', 'Images': '', 'Answers_I': 'Z holds', 'Ependymoma': null} Done.")).

(** A model that answers without any JSON. *)
Definition example_prose_model (prompt : str) : result pyval :=
  inr (VStr (cps "I cannot read this document.")).

(** A model function that is interrupted from the keyboard while it
    waits for the answer. *)
Definition example_interrupted_model (prompt : str) : result pyval :=
  inl (Base KeyboardInterrupt).

(** A heuristic mapping. *)
Definition example_data : dict :=
  <[cps "Images" := VNone]> (
  <[cps "Answers" := VStr answers_not_found]> (
  <[cps "Thoughts" := VStr thoughts_not_found]> (
  <[cps "Introduction" := VStr (cps "This paper studies X.")]> (
  <[cps "document" := VStr title_not_found]> ∅)))).


(** What [example_model] says, parsed. *)
Definition example_llm : dict :=
  list_to_map
    [(cps "document", VStr (cps "A study of X")); (cps "Hallmarks", VStr (cps "null"));
     (cps "Images", VStr []); (cps "Answers_I", VStr (cps "Z holds"));
     (cps "Ependymoma", VNone)].

(** A mapping whose title is the empty string. *)
Definition example_empty_title : dict :=
  <[cps "Answers" := VStr (cps "We found Z.")]> (
  <[cps "Thoughts" := VStr (cps "We did Y.")]> (
  <[cps "Introduction" := VStr (cps "This paper studies X.")]> (
  <[cps "document" := VStr []]> ∅))).

(** A mapping whose title is there, and null. *)
Definition example_null_title : dict :=
  <[cps "document" := VNone]> example_empty_title.

(** ** Notions the properties are stated with *)

(** Every match of [r] starts with the character [c]. *)
Fixpoint needs_first (c : N) (r : regex) : bool :=
  match r with
  | Chr x => (x =? c)%N
  | Seq r1 _ => needs_first c r1
  | Alt r1 r2 => needs_first c r1 && needs_first c r2
  | _ => false
  end.

(** What bounds the rounds of the loops of [re.sub] and [re.findall]. *)
Definition rounds (must_advance : bool) (s : str) : nat :=
  2 * length s + (if must_advance then 0 else 1).

(** The patterns before [p] are not found, [p] is: the match that decides
    the result of the loop. *)
Definition first_match (text_lower : str) (patterns : list regex)
    (p : regex) (span : nat * nat) : Prop :=
  ∃ before after, patterns = before ++ p :: after
    ∧ Forall (λ q, re_search q text_lower = None) before
    ∧ re_search p text_lower = Some span.

(** [value] reads as the string [s]: it is that string, or [bytes] or a
    [bytearray] that decode to it as UTF-8. *)
Definition reads_as (value : pyval) (s : str) : Prop :=
  value = VStr s
  ∨ ∃ b, (value = VBytes b ∨ value = VByteArray b) ∧ utf8_decode b = Some s.

(** What the schema accepts. *)
Definition valid (data : dict) : Prop :=
  Forall (λ name, ∃ value s, data !! name = Some value ∧ reads_as value s)
         required_fields
  ∧ Forall (λ name, data !! name = None ∨ data !! name = Some VNone
                    ∨ ∃ value s, data !! name = Some value ∧ reads_as value s)
           optional_fields.

(** The test of the merge loop. *)
Definition kept (value : pyval) : bool := truthy value && not_null_string value.

(** ** Step 1: the PDF reader

    The file system and the PDF library are outside: whether the path
    exists, and the texts of the pages the library delivers, or the
    exception it raises on the way, are what the reader is given. *)

(** [FileNotFoundError(f"PDF file not found: {file_path}")] *)
Definition file_not_found (file_path : str) : Exception :=
  OtherError (cps "PDF file not found: " ++ file_path).

(** The loop over the pages: [text += page.get_text() + "\n"]. *)
Definition pages_text (pages : list str) : str :=
  foldl (λ text page, text ++ page ++ [NL]) [] pages.

Definition read_pdf_file (file_path : str) (path_exists : bool)
    (document : result (list str)) : result str :=
  if negb path_exists then inl (file_not_found file_path)
  else
    try_except
      (let! pages := document in
       let text := pages_text pages in
       if negb (nonempty (strip text))
       then inl (ValueError (cps "Could not extract text from PDF file"))
       else inr text)
      (* except Exception as e: ... raise *)
      (λ e, inl e).

(** ** The record as a mapping, and the report *)

(** [doc_info.model_dump()]: every field of the schema under its name, the
    optional ones as null where they are not set. *)
Definition model_dump (doc_info : DocumentInfo) : dict :=
  <[cps "Ependymoma" := of_option (Ependymoma doc_info)]> (
  <[cps "Further_Thoughts" := of_option (Further_Thoughts doc_info)]> (
  <[cps "Answers_II" := of_option (Answers_II doc_info)]> (
  <[cps "Answers_I" := of_option (Answers_I doc_info)]> (
  <[cps "Thoughts_I" := of_option (Thoughts_I doc_info)]> (
  <[cps "Further_Development" := of_option (Further_Development doc_info)]> (
  <[cps "Images" := of_option (Images doc_info)]> (
  <[cps "Further_Reading" := of_option (Further_Reading doc_info)]> (
  <[cps "Hallmarks" := of_option (Hallmarks doc_info)]> (
  <[cps "Answers" := VStr (Answers doc_info)]> (
  <[cps "Thoughts" := VStr (Thoughts doc_info)]> (
  <[cps "Introduction" := VStr (Introduction doc_info)]> (
  <[cps "document" := VStr (document doc_info)]> ∅)))))))))))).

(** [f"{s[:n]}{'...' if len(s) > n else ''}"] *)
Definition preview (s : str) (n : nat) : str :=
  take n s ++ (if n <? length s then cps "..." else []).

(** ["="*60] *)
Definition rule : str := replicate 60 (ch "=").

(** The line of an optional field: printed when the field is truthy. *)
Definition optional_line (label : str) (field : option str) : list str :=
  match field with
  | Some s => if nonempty s then [label ++ preview s 150] else []
  | None => []
  end.

(** [display_extraction_results]: the texts it prints, one for each call
    of [print]. *)
Definition display_extraction_results (doc_info : DocumentInfo) : list str :=
  [ [NL] ++ rule;
    [128203%N] ++ cps " EXTRACTION RESULTS";
    rule;
    [NL; 128196%N] ++ cps " Document: " ++ document doc_info;
    [NL; 128214%N] ++ cps " Introduction: " ++ preview (Introduction doc_info) 200;
    [NL; 128173%N] ++ cps " Thoughts: " ++ preview (Thoughts doc_info) 200;
    [NL; 128161%N] ++ cps " Answers: " ++ preview (Answers doc_info) 200 ]
  ++ optional_line ([NL; 128218%N] ++ cps " Further Reading: ") (Further_Reading doc_info)
  ++ optional_line ([NL; 128444%N; 65039%N] ++ cps " Images: ") (Images doc_info)
  ++ optional_line ([NL; 128302%N] ++ cps " Further Development: ")
                   (Further_Development doc_info).

(** ** More notions the properties are stated with *)

(** [a] is a piece of [b]: some characters before, some behind. *)
Definition infix_of (a b : str) : Prop := ∃ l r, b = l ++ a ++ r.

(** The seven keys the orchestrator sets. *)
Definition heuristic_fields : list str :=
  [cps "document"; cps "Introduction"; cps "Thoughts"; cps "Answers";
   cps "Further_Reading"; cps "Images"; cps "Further_Development"].

(** [r'\nreferences\n'] as a text. *)
Definition references_header : str := NL :: cps "references" ++ [NL].

(** Every match of [r] ends with the character [c]. *)
Fixpoint needs_last (c : N) (r : regex) : bool :=
  match r with
  | Chr x => (x =? c)%N
  | Seq _ r2 => needs_last c r2
  | Alt r1 r2 => needs_last c r1 && needs_last c r2
  | _ => false
  end.

(** A text of blanks, tabs and newlines. *)
Definition example_blank : str := [SP; NL; 9%N; SP; NL].

(** A model that answers with structured data in which the title is a
    number. *)
Definition example_number_model (prompt : str) : result pyval :=
  inr (VDict (<[cps "document" := VInt 5]> ∅)).

(** A text with a section and a list of references behind it. *)
Definition example_refs : str := cps "A study of X in Y
Introduction
This paper studies X.
References
12
1. Smith et al., 2020, a long citation line over twenty chars.
2. Short.
3. Jones and Brown, 2021, another citation line that is long.
".

(** A text whose list of references holds a short line and a page number
    only. *)
Definition example_short_refs : str := cps "A study of X in Y
References
1. Short.
12
".

(** A mapping whose title comes as [bytes]: [b'Caf\xc3\xa9'], which reads
    as a string of four characters. *)
Definition example_bytes_title : dict :=
  <[cps "document" := VBytes [x43; x61; x66; xc3; xa9]%byte]> example_empty_title.

(** A text that mentions a figure and a table. *)
Definition example_figures : str :=
  cps "As Figure 1: the layout. shows, see Table 2. Counts by group. and Fig 3".

(** * Properties of the embedding *)

(** ** The matcher *)


Section Matcher.
Context {A : Type}.
Implicit Types (k : str → option A) (s : str) (r : regex).

Lemma or_else_Some (x y : option A) (a : A) :
  or_else x y = Some a → x = Some a ∨ (x = None ∧ y = Some a).
Proof. destruct x; simpl; intros; [left | right]; auto. Qed.

Lemma or_else_None (x y : option A) :
  or_else x y = None ↔ x = None ∧ y = None.
Proof. destruct x; simpl; split; intros; intuition congruence. Qed.

(** The continuation of a [*] runs on a suffix of the text, when the
    continuation of its body does. *)
Lemma star_loop_suffix (body : str → (str → option A) → option A) k :
  (∀ s k' x, body s k' = Some x → ∃ s', s' `suffix_of` s ∧ k' s' = Some x) →
  ∀ n s x, star_loop body k n s = Some x →
           ∃ s', s' `suffix_of` s ∧ k s' = Some x.
Proof.
  intros Hbody n. induction n as [|n IH]; intros s x H; simpl in H.
  - exists s. split; [reflexivity | exact H].
  - apply or_else_Some in H as [H | [_ H]].
    + apply Hbody in H as (s1 & Hs1 & H).
      destruct (length s1 <? length s); [|discriminate].
      apply IH in H as (s2 & Hs2 & H).
      exists s2. split; [etrans; eassumption | exact H].
    + exists s. split; [reflexivity | exact H].
Qed.

(** A successful match hands a suffix of the text to its continuation. *)
Lemma rmatch_suffix r : ∀ s k x,
  rmatch r s k = Some x → ∃ s', s' `suffix_of` s ∧ k s' = Some x.
Proof.
  induction r as [|c|p|r1 IH1 r2 IH2|r1 IH1 r2 IH2|r1 IH1]; intros s k x H; simpl in H.
  - exists s. split; [reflexivity | exact H].
  - destruct s as [|y s]; [discriminate|].
    destruct (y =? c)%N; [|discriminate].
    exists s. split; [apply suffix_cons_r; reflexivity | exact H].
  - destruct s as [|y s]; [discriminate|].
    destruct (p y); [|discriminate].
    exists s. split; [apply suffix_cons_r; reflexivity | exact H].
  - apply IH1 in H as (s1 & Hs1 & H). apply IH2 in H as (s2 & Hs2 & H).
    exists s2. split; [etrans; eassumption | exact H].
  - apply or_else_Some in H as [H | [_ H]]; [apply IH1 in H | apply IH2 in H]; exact H.
  - eapply star_loop_suffix; [exact IH1 | exact H].
Qed.

(** A [*] never fails where its continuation accepts the text as it is. *)
Lemma star_loop_is_Some body k n s :
  is_Some (k s) → is_Some (star_loop body k n s).
Proof.
  intros [x Hx]. destruct n as [|n]; simpl; [eauto|].
  destruct (body s _); simpl; eauto.
Qed.

(** A pattern that needs a first character fails on a text that starts
    with another one. *)
Lemma rmatch_needs_first c r : ∀ s k,
  needs_first c r = true → head s ≠ Some c → rmatch r s k = None.
Proof.
  induction r as [|x|p|r1 IH1 r2 IH2|r1 IH1 r2 IH2|r1 IH1]; intros s k Hr Hs;
    simpl in Hr; try discriminate.
  - apply N.eqb_eq in Hr as ->. destruct s as [|y s]; simpl; [reflexivity|].
    destruct (N.eqb_spec y c) as [->|]; [|reflexivity]. simpl in Hs. congruence.
  - simpl. apply IH1; assumption.
  - apply andb_true_iff in Hr as [H1 H2]. simpl.
    rewrite IH1, IH2 by assumption. reflexivity.
Qed.

End Matcher.

(** ** Searching *)

Lemma re_match_at_bounds r ma s len :
  re_match_at r ma s = Some len →
  len ≤ length s ∧ (ma = true → 0 < len).
Proof.
  unfold re_match_at. intros H.
  apply rmatch_suffix in H as (s' & Hs' & H).
  apply suffix_length in Hs'.
  destruct ma; simpl in H.
  - destruct (Nat.eqb_spec (length s') (length s)); [discriminate|].
    injection H as <-. split; [lia | intros _; lia].
  - injection H as <-. split; [lia | discriminate].
Qed.

(** The first match: where it is, and that nothing matches before it. *)
Lemma search_from_Some r : ∀ s ma i a b,
  search_from r ma s i = Some (a, b) →
  ∃ j len, a = i + j ∧ b = a + len ∧ j ≤ length s
    ∧ re_match_at r (ma && (j =? 0)) (drop j s) = Some len
    ∧ ∀ j', j' < j → re_match_at r (ma && (j' =? 0)) (drop j' s) = None.
Proof.
  induction s as [|c s IH]; intros ma i a b H; simpl in H.
  - destruct (re_match_at r ma []) as [len|] eqn:E; [|discriminate].
    injection H as <- <-. exists 0, len.
    rewrite andb_true_r. simpl. repeat split; try lia; exact E.
  - destruct (re_match_at r ma (c :: s)) as [len|] eqn:E.
    + injection H as <- <-. exists 0, len.
      rewrite andb_true_r. simpl. repeat split; try lia; exact E.
    + apply IH in H as (j & len & -> & -> & Hj & Hm & Hbefore).
      exists (S j), len. rewrite andb_false_r. simpl in Hm |- *.
      repeat split; try lia; [exact Hm|].
      intros [|j'] Hlt; simpl.
      * rewrite andb_true_r. exact E.
      * rewrite andb_false_r. specialize (Hbefore j'). simpl in Hbefore.
        apply Hbefore. lia.
Qed.

Lemma search_from_None r : ∀ s ma i,
  search_from r ma s i = None →
  ∀ j, j ≤ length s → re_match_at r (ma && (j =? 0)) (drop j s) = None.
Proof.
  induction s as [|c s IH]; intros ma i H j Hj; simpl in H.
  - destruct (re_match_at r ma []) eqn:E; [discriminate|].
    simpl in Hj. assert (j = 0) as -> by lia. rewrite andb_true_r. exact E.
  - destruct (re_match_at r ma (c :: s)) eqn:E; [discriminate|].
    destruct j as [|j]; simpl.
    + rewrite andb_true_r. exact E.
    + rewrite andb_false_r. specialize (IH _ _ H j). simpl in IH, Hj.
      apply IH. lia.
Qed.

Lemma search_from_bounds r s ma i a b :
  search_from r ma s i = Some (a, b) →
  i ≤ a ∧ a ≤ b ∧ b ≤ i + length s ∧ (ma = true → a = b → i < a).
Proof.
  intros H. apply search_from_Some in H as (j & len & -> & -> & Hj & Hm & _).
  apply re_match_at_bounds in Hm as [Hlen Hadv].
  rewrite length_drop in Hlen.
  repeat split; try lia.
  intros -> Heq. destruct j as [|j]; [|lia].
  simpl in Hadv. specialize (Hadv eq_refl). lia.
Qed.

(** A pattern whose matches all start with [c] is found nowhere in a text
    without [c]. *)
Lemma search_from_needs_first c r : ∀ s ma i,
  needs_first c r = true → c ∉ s → search_from r ma s i = None.
Proof.
  induction s as [|x s IH]; intros ma i Hr Hs; simpl.
  - unfold re_match_at. rewrite (rmatch_needs_first c) by (auto; discriminate).
    reflexivity.
  - apply not_elem_of_cons in Hs as [Hx Hs].
    unfold re_match_at. rewrite (rmatch_needs_first c); auto.
    simpl. congruence.
Qed.

Lemma re_search_needs_first c r s :
  needs_first c r = true → c ∉ s → re_search r s = None.
Proof. apply search_from_needs_first. Qed.

(** ** Substitution *)

Lemma sub_loop_no_match fuel r repl ma s :
  search_from r ma s 0 = None → sub_loop fuel r repl ma s = s.
Proof. intros H. destruct fuel; simpl; [reflexivity|]. rewrite H. reflexivity. Qed.

(** Where the pattern is not found [re.sub] returns the text as it is. *)
Lemma re_sub_no_match r repl s :
  re_search r s = None → re_sub r repl s = s.
Proof. apply sub_loop_no_match. Qed.

(** [re.sub] invents no character: each one is of the text or of the
    replacement. *)
Lemma sub_loop_elem r repl c : ∀ fuel ma s,
  c ∈ sub_loop fuel r repl ma s → c ∈ s ∨ c ∈ repl.
Proof.
  induction fuel as [|fuel IH]; intros ma s H; simpl in H; [auto|].
  destruct (search_from r ma s 0) as [[i j]|]; [|auto].
  rewrite !elem_of_app in H. destruct H as [H | [H | H]].
  - left. eapply elem_of_sublist; [exact H | apply sublist_take].
  - right. exact H.
  - apply IH in H as [H | H]; [left | right; exact H].
    eapply elem_of_sublist; [exact H | apply sublist_drop].
Qed.

Lemma re_sub_elem r repl s c : c ∈ re_sub r repl s → c ∈ s ∨ c ∈ repl.
Proof. apply sub_loop_elem. Qed.

(** One round of the loop leaves fewer rounds to make. *)
Lemma rounds_decrease r ma s i j :
  search_from r ma s 0 = Some (i, j) →
  rounds (bool_decide (i = j)) (drop j s) < rounds ma s.
Proof.
  intros H. apply search_from_bounds in H as (_ & Hij & Hj & Hadv).
  unfold rounds. rewrite length_drop.
  case_bool_decide as Heq; destruct ma; try lia;
    specialize (Hadv eq_refl Heq); lia.
Qed.

(** The fuel of [re_sub] is enough: more of it changes nothing. *)
Lemma sub_loop_fuel r repl : ∀ n m ma s,
  rounds ma s < n → rounds ma s < m →
  sub_loop n r repl ma s = sub_loop m r repl ma s.
Proof.
  induction n as [|n IH]; intros m ma s Hn Hm; [lia|].
  destruct m as [|m]; [lia|]. simpl.
  destruct (search_from r ma s 0) as [[i j]|] eqn:E; [|reflexivity].
  apply rounds_decrease in E.
  rewrite (IH m) by lia. reflexivity.
Qed.

Lemma findall_loop_fuel r : ∀ n m ma s,
  rounds ma s < n → rounds ma s < m →
  findall_loop n r ma s = findall_loop m r ma s.
Proof.
  induction n as [|n IH]; intros m ma s Hn Hm; [lia|].
  destruct m as [|m]; [lia|]. simpl.
  destruct (search_from r ma s 0) as [[i j]|] eqn:E; [|reflexivity].
  apply rounds_decrease in E.
  rewrite (IH m) by lia. reflexivity.
Qed.

(** [\s+] matches wherever a whitespace character stands. *)
Lemma whitespace_run_matches ma c s :
  isspace c = true → is_Some (re_match_at whitespace_run ma (c :: s)).
Proof.
  intros Hc. unfold re_match_at, whitespace_run, Plus.
  cbn [rmatch]. rewrite Hc.
  apply star_loop_is_Some.
  replace (length s =? length (c :: s)) with false.
  - rewrite andb_false_r. eauto.
  - symmetry. apply Nat.eqb_neq. simpl. lia.
Qed.

Lemma no_whitespace_before ma s j c :
  re_match_at whitespace_run (ma && (j =? 0)) (drop j s) = None →
  s !! j = Some c → isspace c = false.
Proof.
  intros Hm Hc. destruct (isspace c) eqn:E; [|reflexivity].
  rewrite (drop_S _ _ _ Hc) in Hm.
  destruct (whitespace_run_matches (ma && (j =? 0)) c (drop (S j) s) E) as [x Hx].
  congruence.
Qed.

(** After the first pass the only whitespace left is the blank. *)
Lemma sub_whitespace c : ∀ fuel ma s,
  rounds ma s < fuel →
  c ∈ sub_loop fuel whitespace_run [SP] ma s → isspace c = false ∨ c = SP.
Proof.
  induction fuel as [|fuel IH]; intros ma s Hfuel H; [lia|]. simpl in H.
  destruct (search_from whitespace_run ma s 0) as [[i j]|] eqn:E.
  - pose proof (rounds_decrease _ _ _ _ _ E) as Hdec.
    apply search_from_Some in E as (i' & len & Hi & -> & _ & _ & Hbefore).
    simpl in Hi. subst i'.
    apply elem_of_app in H as [H | H]; [|apply elem_of_cons in H as [H | H]].
    + left. apply elem_of_take in H as (n & Hn & Hlt).
      eapply no_whitespace_before; [apply Hbefore; exact Hlt | exact Hn].
    + right. exact H.
    + eapply IH; [|exact H]. lia.
  - left. apply list_elem_of_lookup in H as [n Hn].
    eapply no_whitespace_before; [|exact Hn].
    eapply search_from_None; [exact E|].
    apply lookup_lt_Some in Hn. lia.
Qed.

Lemma drop_while_suffix p s : drop_while p s `suffix_of` s.
Proof.
  induction s as [|c s IH]; simpl; [reflexivity|].
  destruct (p c); [apply suffix_cons_r; exact IH | reflexivity].
Qed.

Lemma elem_of_suffix (c : N) (s1 s2 : str) : s1 `suffix_of` s2 → c ∈ s1 → c ∈ s2.
Proof. intros [k ->] H. apply elem_of_app. right. exact H. Qed.

(** [strip] only removes characters. *)
Lemma strip_elem c s : c ∈ strip s → c ∈ s.
Proof.
  unfold strip, rstrip, lstrip. rewrite elem_of_reverse. intros H.
  apply (elem_of_suffix _ _ _ (drop_while_suffix _ _)) in H.
  rewrite elem_of_reverse in H.
  apply (elem_of_suffix _ _ _ (drop_while_suffix _ _)) in H. exact H.
Qed.

(** ** The embedding on small inputs, against what Python answers *)

Example split_lines : split_on NL (cps "a

b
") = [cps "a"; []; cps "b"; []].
Proof. reflexivity. Qed.

Lemma split_on_not_nil (sep : N) (s : str) : split_on sep s ≠ [].
Proof.
  destruct s as [|c s]; simpl; [discriminate|].
  destruct (c =? sep)%N; [discriminate|].
  destruct (split_on sep s); discriminate.
Qed.

(** Joining the pieces with the separator gives the text back. *)
Lemma join_split_on (sep : N) (s : str) : join [sep] (split_on sep s) = s.
Proof.
  induction s as [|c s IH]; [reflexivity|]. simpl.
  pose proof (split_on_not_nil sep s) as Hne.
  destruct (split_on sep s) as [|l ls]; [congruence|].
  destruct (N.eqb_spec c sep) as [->|].
  - rewrite <- IH. reflexivity.
  - rewrite <- IH. destruct ls; reflexivity.
Qed.

Example strip_both_ends : strip (cps "  a b
 ") = cps "a b".
Proof. reflexivity. Qed.

Example slice_to_negative : slice_to (cps "abcd") (-1) = cps "abc".
Proof. reflexivity. Qed.

Example sub_whitespace_run : re_sub (Plus (Cls isspace)) [SP] (cps "a  b
c") = cps "a b c".
Proof. vm_compute. reflexivity. Qed.

Example sub_empty_matches :
  re_sub (Star (Chr (ch "x"))) (cps "-") (cps "abxd") = cps "-a-b--d-".
Proof. vm_compute. reflexivity. Qed.

Example findall_empty_matches :
  re_findall (Star (Chr (ch "x"))) (cps "abxd") = [[]; []; cps "x"; []; []].
Proof. vm_compute. reflexivity. Qed.

Example sub_url :
  re_sub url [] (cps "see https://a.org/x?y=1 and mail me") = cps "see  and mail me".
Proof. vm_compute. reflexivity. Qed.

Example sub_email :
  re_sub email [] (cps "write to a.b@c.org now") = cps "write to  now".
Proof. vm_compute. reflexivity. Qed.

Example figures_found :
  extract_figures_and_images (U := ascii_data)
    (cps "see FIGURE 12: a cat. and Table 3. x.y and fig. 2: z")
  = Some (cps "FIGURE 12: a cat.; Table 3. x.").
Proof. vm_compute. reflexivity. Qed.

Example references_found :
  extract_references (U := ascii_data) example_raw
  = Some (cps "1. Smith et al., 2020, a long citation line over twenty chars.").
Proof. vm_compute. reflexivity. Qed.

Example json_loads_flat_object :
  json_loads_flat (quoted " { 'a' : -12 , 'b':true,'c':'x y', 'a': 0 } ")
  = inr (VDict (list_to_map [(cps "a", VInt 0); (cps "b", VBool true);
                             (cps "c", VStr (cps "x y"))])).
Proof. vm_compute. reflexivity. Qed.

Example json_loads_flat_empty : json_loads_flat [] = inl JSONDecodeError.
Proof. reflexivity. Qed.

(** ** The text normalizer *)

Section Normalizer.
Context {U : UnicodeData}.

Lemma newline_is_space : isspace NL = true ∧ NL ≠ SP.
Proof. split; [reflexivity | discriminate]. Qed.

Lemma sub_empty_no_newline r s : NL ∉ s → NL ∉ re_sub r [] s.
Proof.
  intros Hs H. apply re_sub_elem in H as [H | H]; [exact (Hs H)|].
  apply elem_of_nil in H. exact H.
Qed.

(** After the first pass the blank is the only whitespace character. *)
Lemma first_pass_blank_only (raw_text : str) :
  Forall (λ c, isspace c = false ∨ c = SP) (re_sub whitespace_run [SP] raw_text).
Proof.
  apply Forall_forall. intros c Hc.
  eapply sub_whitespace; [|exact Hc]. unfold rounds. lia.
Qed.

Lemma first_pass_no_newline (raw_text : str) :
  NL ∉ re_sub whitespace_run [SP] raw_text.
Proof.
  intros H. pose proof (first_pass_blank_only raw_text) as H1.
  rewrite Forall_forall in H1. destruct newline_is_space.
  destruct (H1 _ H); congruence.
Qed.

(** The passes anchored on a newline find nothing to replace. *)
Lemma page_number_pass_inert (s : str) : NL ∉ s → re_sub page_number [NL] s = s.
Proof.
  intros Hs. apply re_sub_no_match, (re_search_needs_first NL); [reflexivity | exact Hs].
Qed.

Lemma newline_pass_inert (s : str) : NL ∉ s → re_sub newline_run [NL] s = s.
Proof.
  intros Hs. apply re_sub_no_match, (re_search_needs_first NL); [reflexivity | exact Hs].
Qed.

Lemma fourth_pass_no_newline (raw_text : str) :
  NL ∉ re_sub email [] (re_sub url []
         (re_sub page_number [NL] (re_sub whitespace_run [SP] raw_text))).
Proof.
  apply sub_empty_no_newline, sub_empty_no_newline.
  rewrite page_number_pass_inert; apply first_pass_no_newline.
Qed.

Lemma clean_pdf_text_strip (raw_text : str) :
  clean_pdf_text raw_text
  = strip (re_sub email [] (re_sub url []
             (re_sub page_number [NL] (re_sub whitespace_run [SP] raw_text)))).
Proof.
  unfold clean_pdf_text. rewrite newline_pass_inert; [reflexivity|].
  apply fourth_pass_no_newline.
Qed.

Lemma clean_pdf_text_newline_free (raw_text : str) : NL ∉ clean_pdf_text raw_text.
Proof.
  rewrite clean_pdf_text_strip. intros H. apply strip_elem in H.
  exact (fourth_pass_no_newline raw_text H).
Qed.

(** C2: the output of the normalizer holds no newline.  The first pass
    leaves the blank as the only whitespace character of the text, so the
    pass that strips the page numbers and the pass that collapses the
    newlines return their input as it is, and no pattern that begins with a
    newline, the section patterns of the extractors among them, is found in
    the output of the normalizer. *)
Theorem clean_pdf_text_no_newline (raw_text : str) :
  let t1 := re_sub whitespace_run [SP] raw_text in
  let t2 := re_sub page_number [NL] t1 in
  let t3 := re_sub url [] t2 in
  let t4 := re_sub email [] t3 in
  Forall (λ c, isspace c = false ∨ c = SP) t1
  ∧ t2 = t1
  ∧ re_sub newline_run [NL] t4 = t4
  ∧ clean_pdf_text raw_text = strip t4
  ∧ (NL ∉ clean_pdf_text raw_text)
  ∧ (∀ r, re_search (Seq (Chr NL) r) (clean_pdf_text raw_text) = None)
  ∧ Forall (λ r, re_search r (clean_pdf_text raw_text) = None)
      (intro_patterns ++ thought_patterns ++ answer_patterns
       ++ ref_patterns ++ limitation_patterns).
Proof.
  intros t1 t2 t3 t4.
  pose proof (clean_pdf_text_newline_free raw_text) as NC.
  split; [apply first_pass_blank_only|].
  split; [apply page_number_pass_inert, first_pass_no_newline|].
  split; [apply newline_pass_inert, fourth_pass_no_newline|].
  split; [apply clean_pdf_text_strip|].
  split; [exact NC|]. split.
  - intros r. apply (re_search_needs_first NL); [apply N.eqb_refl | exact NC].
  - repeat constructor; apply (re_search_needs_first NL); solve [reflexivity | exact NC].
Qed.

End Normalizer.

(** ** Pieces of a text *)

Lemma infix_of_refl (s : str) : infix_of s s.
Proof. exists [], []. rewrite app_nil_r. reflexivity. Qed.

Lemma infix_of_trans (a b c : str) : infix_of a b → infix_of b c → infix_of a c.
Proof.
  intros (l1 & r1 & ->) (l2 & r2 & ->). exists (l2 ++ l1), (r1 ++ r2).
  rewrite <- !app_assoc. reflexivity.
Qed.

Lemma prefix_infix (a b : str) : a `prefix_of` b → infix_of a b.
Proof. intros [r ->]. exists [], r. reflexivity. Qed.

Lemma suffix_infix (a b : str) : a `suffix_of` b → infix_of a b.
Proof. intros [l ->]. exists l, []. rewrite app_nil_r. reflexivity. Qed.

Lemma take_infix (n : nat) (s : str) : infix_of (take n s) s.
Proof. apply prefix_infix, prefix_take. Qed.

Lemma drop_infix (n : nat) (s : str) : infix_of (drop n s) s.
Proof. apply suffix_infix, suffix_drop. Qed.

Lemma slice_infix (s : str) (a b : nat) : infix_of (slice s a b) s.
Proof. eapply infix_of_trans; [apply take_infix | apply drop_infix]. Qed.

Lemma slice_to_prefix (s : str) (n : Z) : slice_to s n `prefix_of` s.
Proof. unfold slice_to. destruct (0 <=? n)%Z; apply prefix_take. Qed.

Lemma infix_of_length (a b : str) : infix_of a b → length a ≤ length b.
Proof. intros (l & r & ->). rewrite !length_app. lia. Qed.

Lemma infix_of_elem (a b : str) c : infix_of a b → c ∈ a → c ∈ b.
Proof. intros (l & r & ->) H. rewrite !elem_of_app. auto. Qed.

Lemma infix_of_cons (a b : str) c : infix_of a b → infix_of a (c :: b).
Proof. intros (l & r & ->). exists (c :: l), r. reflexivity. Qed.

(** The pieces [split] returns: the first is the head of the text, each is
    a piece of it, none holds the separator. *)
Lemma split_on_pieces (sep : N) : ∀ s,
  (∃ l ls, split_on sep s = l :: ls ∧ l `prefix_of` s)
  ∧ Forall (λ piece, infix_of piece s ∧ sep ∉ piece) (split_on sep s).
Proof.
  induction s as [|c s [(l & ls & E & Hl) IH]]; simpl.
  - split; [exists [], []; split; reflexivity|].
    repeat constructor; [apply infix_of_refl | apply not_elem_of_nil].
  - rewrite E in IH |- *. destruct (N.eqb_spec c sep) as [->|Hc].
    + split; [exists [], (l :: ls); split; [reflexivity | apply prefix_nil]|].
      constructor; [split; [exists [], (sep :: s); reflexivity | apply not_elem_of_nil]|].
      eapply Forall_impl; [exact IH|]. intros piece [Hp Hs].
      split; [apply infix_of_cons, Hp | exact Hs].
    + inversion IH as [|? ? [Hin Hsep] IH']; subst.
      split; [exists (c :: l), ls; split; [reflexivity | apply prefix_cons, Hl]|].
      constructor.
      * split; [apply prefix_infix, prefix_cons, Hl|].
        apply not_elem_of_cons. split; [congruence | exact Hsep].
      * eapply Forall_impl; [exact IH'|]. intros piece [Hp Hs].
        split; [apply infix_of_cons, Hp | exact Hs].
Qed.

Lemma split_on_absent (sep : N) (s : str) : sep ∉ s → split_on sep s = [s].
Proof.
  induction s as [|c s IH]; intros Hs; [reflexivity|].
  apply not_elem_of_cons in Hs as [Hc Hs]. simpl.
  destruct (N.eqb_spec c sep); [congruence|]. rewrite IH by exact Hs. reflexivity.
Qed.

Lemma starts_with_app (w s r : str) :
  starts_with w s = true → starts_with w (s ++ r) = true.
Proof.
  revert s. induction w as [|a w IH]; intros s H; [reflexivity|].
  destruct s as [|b s]; [discriminate|]. simpl in *.
  apply andb_true_iff in H as [-> H]. simpl. apply IH, H.
Qed.

Lemma starts_with_take (w s : str) (n : nat) :
  starts_with w (take n s) = true → starts_with w s = true.
Proof.
  intros H. rewrite <- (take_drop n s). apply starts_with_app, H.
Qed.

Lemma starts_with_length (w s : str) :
  starts_with w s = true → length w ≤ length s.
Proof.
  revert s. induction w as [|a w IH]; intros s H; simpl; [lia|].
  destruct s as [|b s]; [discriminate|]. simpl in *.
  apply andb_true_iff in H as [_ H]. apply IH in H. lia.
Qed.

(** [w in s]: [w] stands at some position of [s]. *)
Lemma contains_spec (w s : str) :
  contains w s = true ↔ ∃ j, j ≤ length s ∧ starts_with w (drop j s) = true.
Proof.
  induction s as [|c s IH].
  - simpl. rewrite orb_false_r. split.
    + intros H. exists 0. split; [lia | exact H].
    + intros (j & _ & H). destruct j; exact H.
  - cbn [contains]. rewrite orb_true_iff, IH. split.
    + intros [H | (j & Hj & H)].
      * exists 0. split; [lia | exact H].
      * exists (S j). split; [simpl; lia | exact H].
    + intros ([|j] & Hj & H); [left; exact H|].
      right. exists j. split; [simpl in Hj; lia | exact H].
Qed.

Lemma contains_infix (w a b : str) :
  infix_of a b → contains w a = true → contains w b = true.
Proof.
  intros (l & r & ->). rewrite !contains_spec. intros (j & Hj & H).
  exists (length l + j). split; [rewrite !length_app; lia|].
  rewrite drop_app_add'; [|reflexivity].
  rewrite drop_app_le by exact Hj. apply starts_with_app, H.
Qed.

Lemma split_on_app (sep : N) (rest : str) : ∀ piece : str,
  sep ∉ piece → split_on sep (piece ++ sep :: rest) = piece :: split_on sep rest.
Proof.
  induction piece as [|c piece IH]; intros Hsep; simpl.
  - rewrite N.eqb_refl. reflexivity.
  - apply not_elem_of_cons in Hsep as [Hc Hsep].
    destruct (N.eqb_spec c sep); [congruence|]. rewrite IH by exact Hsep. reflexivity.
Qed.

(** The pieces of a text are the only way to write it as pieces without
    the separator, joined by it. *)
Lemma split_on_join (sep : N) : ∀ pieces : list str,
  pieces ≠ [] → Forall (λ piece, sep ∉ piece) pieces →
  split_on sep (join [sep] pieces) = pieces.
Proof.
  induction pieces as [|piece pieces IH]; intros Hne Hall; [congruence|].
  inversion Hall as [|? ? Hpiece Hrest]; subst.
  destruct pieces as [|next pieces].
  - simpl. apply split_on_absent, Hpiece.
  - change (join [sep] (piece :: next :: pieces))
      with (piece ++ sep :: join [sep] (next :: pieces)).
    rewrite split_on_app by exact Hpiece. rewrite IH; [reflexivity | discriminate | exact Hrest].
Qed.

Lemma starts_with_refl (w r : str) : starts_with w (w ++ r) = true.
Proof. induction w as [|a w IH]; simpl; [reflexivity|]. rewrite N.eqb_refl. exact IH. Qed.

Lemma starts_with_prefix (w : str) : ∀ s : str,
  starts_with w s = true → ∃ r, s = w ++ r.
Proof.
  induction w as [|a w IH]; intros s H; [exists s; reflexivity|].
  destruct s as [|b s]; [discriminate|]. simpl in H.
  apply andb_true_iff in H as [Hab H]. apply N.eqb_eq in Hab as ->.
  destruct (IH s H) as [r ->]. exists r. reflexivity.
Qed.

(** [w in s] holds exactly when [w] is a piece of [s]. *)
Lemma contains_infix_of (w s : str) : contains w s = true ↔ infix_of w s.
Proof.
  rewrite contains_spec. split.
  - intros (j & _ & H). apply starts_with_prefix in H as [r Hr].
    exists (take j s), r. rewrite <- Hr. symmetry. apply take_drop.
  - intros (l & r & ->). exists (length l). split; [rewrite length_app; lia|].
    rewrite drop_app_length. apply starts_with_refl.
Qed.

Lemma filter_nonempty (l : list str) :
  List.filter nonempty l = filter (λ line : str, line ≠ []) l.
Proof.
  induction l as [|line l IH]; [reflexivity|].
  rewrite filter_cons. cbn [List.filter]. rewrite IH.
  destruct line; [rewrite decide_False by congruence | rewrite decide_True by discriminate];
    reflexivity.
Qed.

(** ** The title extractor *)

Section Title.
Context {U : UnicodeData}.

Lemma find_first {T} (P : T → bool) (l : list T) :
  match List.find P l with
  | Some x => ∃ i, l !! i = Some x ∧ P x = true
                   ∧ ∀ j y, j < i → l !! j = Some y → P y = false
  | None => Forall (λ y, P y = false) l
  end.
Proof.
  induction l as [|a l IH]; simpl; [constructor|].
  destruct (P a) eqn:Ha.
  - exists 0. repeat split; [exact Ha|]. intros; lia.
  - destruct (List.find P l) as [x|].
    + destruct IH as (i & Hi & Hx & Hbefore).
      exists (S i). repeat split; [exact Hi | exact Hx |].
      intros [|j] y Hj Hy; simpl in Hy; [congruence|].
      eapply Hbefore; [|exact Hy]. lia.
    + constructor; assumption.
Qed.

(** The loop returns the first line that qualifies. *)
Lemma title_loop_find lines :
  title_loop lines =
  match List.find qualifies lines with
  | Some line => line
  | None => title_not_found
  end.
Proof.
  induction lines as [|line rest IH]; [reflexivity|].
  cbn [title_loop List.find]. unfold qualifies at 1, has_marker.
  destruct (existsb _ skip_markers); cbn [negb andb]; [exact IH|].
  destruct (10 <? length line); [reflexivity | exact IH].
Qed.

Lemma has_marker_spec (line : str) :
  has_marker line = true
  ↔ ∃ marker, marker ∈ [cps "issn"; cps "doi"; [169%N]; cps "page"; cps "volume"]
              ∧ infix_of marker (lower line).
Proof.
  unfold has_marker. rewrite existsb_exists.
  change skip_markers with [cps "issn"; cps "doi"; [169%N]; cps "page"; cps "volume"].
  split; intros (marker & Hin & H); exists marker.
  - split; [apply list_elem_of_In, Hin | apply contains_infix_of, H].
  - split; [apply list_elem_of_In, Hin | apply contains_infix_of, H].
Qed.

Lemma qualifies_spec (line : str) :
  qualifies line = true
  ↔ (¬ ∃ marker, marker ∈ [cps "issn"; cps "doi"; [169%N]; cps "page"; cps "volume"]
                 ∧ infix_of marker (lower line))
    ∧ 10 < length line.
Proof.
  unfold qualifies. rewrite andb_true_iff, negb_true_iff, Nat.ltb_lt.
  rewrite <- has_marker_spec. destruct (has_marker line); split; intros [H1 H2];
    split; auto; try congruence; try (exfalso; apply H1; reflexivity).
Qed.

(** C7: write the text as lines, the pieces between its newlines.  The
    title is the first of the first 20 non-empty trimmed lines that holds
    none of the markers "issn", "doi", "©", "page" and "volume", whatever
    its case, and is longer than 10 characters, and the sentinel "Document
    title not found" when there is no such line; it is never the empty
    string (and, being a string, never null). *)
Theorem extract_title_spec (text : str) (pieces : list str) :
  pieces ≠ [] → join [NL] pieces = text → Forall (λ piece, NL ∉ piece) pieces →
  let candidates := take 20 (filter (λ line : str, line ≠ []) (map strip pieces)) in
  let marked (line : str) :=
    ∃ marker, marker ∈ [cps "issn"; cps "doi"; [169%N]; cps "page"; cps "volume"]
              ∧ infix_of marker (lower line) in
  let title (line : str) := ¬ marked line ∧ 10 < length line in
  extract_title text = title_spec text
  ∧ ((∃ i line, candidates !! i = Some line ∧ extract_title text = line ∧ title line
        ∧ ∀ j other, j < i → candidates !! j = Some other → ¬ title other)
     ∨ (extract_title text = cps "Document title not found"
        ∧ Forall (λ line, ¬ title line) candidates))
  ∧ extract_title text ≠ [].
Proof.
  intros Hne Hjoin Hpieces candidates marked title.
  assert (Hsplit : split_on NL text = pieces)
    by (rewrite <- Hjoin; apply split_on_join; assumption).
  assert (Hcand : candidates = take 20 (stripped_lines text)).
  { unfold candidates, stripped_lines. rewrite Hsplit, filter_nonempty. reflexivity. }
  assert (E : extract_title text = title_spec text).
  { unfold extract_title, title_spec. apply title_loop_find. }
  assert (Hq : ∀ line, qualifies line = false → ¬ title line).
  { intros line Hline Ht. apply qualifies_spec in Ht. congruence. }
  assert (D : (∃ i line, candidates !! i = Some line ∧ extract_title text = line ∧ title line
        ∧ ∀ j other, j < i → candidates !! j = Some other → ¬ title other)
     ∨ (extract_title text = cps "Document title not found"
        ∧ Forall (λ line, ¬ title line) candidates)).
  { rewrite E, Hcand. unfold title_spec.
    pose proof (find_first qualifies (take 20 (stripped_lines text))) as H.
    destruct (List.find qualifies (take 20 (stripped_lines text))) as [line|].
    - left. destruct H as (i & Hi & Hline & Hbefore).
      exists i, line. split; [exact Hi|]. split; [reflexivity|].
      split; [apply qualifies_spec, Hline|].
      intros j other Hj Hother. apply Hq. eapply Hbefore; eassumption.
    - right. split; [reflexivity|].
      eapply Forall_impl; [exact H | exact Hq]. }
  split; [exact E | split; [exact D|]].
  destruct D as [(i & line & _ & -> & [_ Hlen] & _) | [-> _]].
  - intros ->. simpl in Hlen. lia.
  - discriminate.
Qed.

End Title.

(** C7 on a text of five lines: the first one is the title. *)
Lemma extract_title_spec_witness :
  let pieces := [cps "A study of X in Y"; cps "Introduction"; cps "This paper studies X.";
                 cps "MATERIALS AND METHODS"; cps "We did Y."; []] in
  pieces ≠ [] ∧ join [NL] pieces = example_caps
  ∧ Forall (λ piece, NL ∉ piece) pieces
  ∧ extract_title (U := ascii_data) example_caps ≠ [].
Proof.
  intros pieces.
  assert (H1 : pieces ≠ []) by discriminate.
  assert (H2 : join [NL] pieces = example_caps) by reflexivity.
  assert (H3 : Forall (λ piece, NL ∉ piece) pieces).
  { repeat (apply List.Forall_cons;
            [intros H; vm_compute in H;
             repeat (apply elem_of_cons in H as [H | H]; [discriminate|]);
             apply elem_of_nil in H; exact H|]).
    apply List.Forall_nil. }
  split; [exact H1|]. split; [exact H2|]. split; [exact H3|].
  apply (extract_title_spec (U := ascii_data) example_caps pieces H1 H2 H3).
Defined.

(** ** The generic section extractor *)

Lemma slice_to_length (s : str) (n : Z) :
  (0 ≤ n)%Z → (Z.of_nat (length (slice_to s n)) ≤ n)%Z.
Proof.
  intros Hn. unfold slice_to.
  destruct (Z.leb_spec 0 n) as [_|]; [|lia].
  rewrite length_take. lia.
Qed.

Lemma slice_to_nonempty (s : str) (n : Z) :
  (0 < n)%Z → s ≠ [] → slice_to s n ≠ [].
Proof.
  intros Hn Hs. unfold slice_to.
  destruct (Z.leb_spec 0 n) as [_|]; [|lia].
  destruct s as [|c s]; [congruence|].
  destruct (Z.to_nat n) as [|m] eqn:E; [lia|]. discriminate.
Qed.

Lemma nonempty_false (s : str) : nonempty s = false ↔ s = [].
Proof. destruct s; simpl; split; congruence. Qed.

Lemma nonempty_true (s : str) : nonempty s = true ↔ s ≠ [].
Proof. destruct s; simpl; split; congruence. Qed.

Section Sections.
Context {U : UnicodeData}.

Lemma section_loop_None text text_lower patterns max_chars :
  section_loop text text_lower patterns max_chars = None ↔
  Forall (λ p, re_search p text_lower = None) patterns
  ∨ ∃ p span, first_match text_lower patterns p span
      ∧ section_at text text_lower span.2 = [].
Proof.
  induction patterns as [|q patterns IH]; simpl.
  - split; [left; constructor | reflexivity].
  - destruct (re_search q text_lower) as [[a b]|] eqn:E.
    + destruct (nonempty (section_at text text_lower b)) eqn:Esec; split.
      * discriminate.
      * intros [H | (p & span & (before & after & Hpats & Hbefore & Hp) & Hempty)].
        { inversion H; congruence. }
        destruct before as [|q' before]; simpl in Hpats; injection Hpats as <- Hrest.
        -- rewrite E in Hp. injection Hp as <-. simpl in Hempty.
           apply nonempty_true in Esec. congruence.
        -- inversion Hbefore; congruence.
      * intros _. right. exists q, (a, b). split.
        -- exists [], patterns. repeat split; [constructor | exact E].
        -- apply nonempty_false. exact Esec.
      * reflexivity.
    + rewrite IH. split.
      * intros [H | (p & span & (before & after & -> & Hbefore & Hp) & Hempty)].
        -- left. constructor; assumption.
        -- right. exists p, span. split; [|exact Hempty].
           exists (q :: before), after. repeat split; [constructor; assumption | exact Hp].
      * intros [H | (p & span & (before & after & Hpats & Hbefore & Hp) & Hempty)].
        -- left. inversion H; assumption.
        -- right. exists p, span. split; [|exact Hempty].
           destruct before as [|q' before]; simpl in Hpats; injection Hpats as <- Hrest.
           ++ congruence.
           ++ exists before, after. inversion Hbefore. repeat split; assumption.
Qed.

Lemma section_loop_Some text text_lower patterns max_chars section :
  section_loop text text_lower patterns max_chars = Some section →
  ∃ p span, first_match text_lower patterns p span
    ∧ section_at text text_lower span.2 ≠ []
    ∧ section = slice_to (section_at text text_lower span.2) max_chars.
Proof.
  induction patterns as [|q patterns IH]; simpl; [discriminate|].
  destruct (re_search q text_lower) as [[a b]|] eqn:E.
  - destruct (nonempty (section_at text text_lower b)) eqn:Esec; [|discriminate].
    intros [= <-]. exists q, (a, b). split; [|split].
    + exists [], patterns. repeat split; [constructor | exact E].
    + apply nonempty_true. exact Esec.
    + reflexivity.
  - intros H. apply IH in H as (p & span & (before & after & -> & Hbefore & Hp) & Hne & ->).
    exists p, span. split; [|split; [exact Hne | reflexivity]].
    exists (q :: before), after. repeat split; [constructor; assumption | exact Hp].
Qed.

(** C5, as amended: the extractor returns null exactly when no start
    pattern is found in the lowercased text or the section captured behind
    the first pattern found is empty after trimming; under a cap that is
    not negative, a section it returns is at most [max_chars] long. *)
Theorem extract_section_by_pattern_spec (text : str) (patterns : list regex)
    (max_chars : Z) :
  (extract_section_by_pattern text patterns max_chars = None ↔
     Forall (λ p, re_search p (lower text) = None) patterns
     ∨ ∃ p span, first_match (lower text) patterns p span
         ∧ section_at text (lower text) span.2 = [])
  ∧ ((0 ≤ max_chars)%Z → ∀ section,
       extract_section_by_pattern text patterns max_chars = Some section →
       (Z.of_nat (length section) ≤ max_chars)%Z).
Proof.
  split; [apply section_loop_None|].
  intros Hcap section H.
  apply section_loop_Some in H as (p & span & _ & _ & ->).
  apply slice_to_length. exact Hcap.
Qed.

(** Under a positive cap a section that is returned is not empty. *)
Lemma extract_section_nonempty text patterns max_chars section :
  (0 < max_chars)%Z →
  extract_section_by_pattern text patterns max_chars = Some section → section ≠ [].
Proof.
  intros Hcap H. apply section_loop_Some in H as (p & span & _ & Hne & ->).
  apply slice_to_nonempty; assumption.
Qed.

(** No start pattern found: no section. *)
Lemma extract_section_not_found text patterns max_chars :
  Forall (λ p, re_search p (lower text) = None) patterns →
  extract_section_by_pattern text patterns max_chars = None.
Proof. intros H. apply section_loop_None. left. exact H. Qed.

(** The heading in capitals is found in no text without an ASCII capital. *)
Lemma caps_heading_needs_capital : ∀ s ma i,
  Forall (λ c, in_range (ch "A") (ch "Z") c = false) s →
  search_from caps_heading ma s i = None.
Proof.
  induction s as [|x s IH]; intros ma i Hs; [reflexivity|].
  inversion Hs as [|? ? Hx Hs']; subst.
  cbn [search_from]. rewrite (IH false (S i) Hs').
  replace (re_match_at caps_heading ma (x :: s)) with (@None nat); [reflexivity|].
  unfold re_match_at, caps_heading. cbn [rmatch].
  destruct (x =? NL)%N; [|reflexivity].
  destruct s as [|y s]; [reflexivity|].
  inversion Hs' as [|? ? Hy _]; subst. rewrite Hy. reflexivity.
Qed.

End Sections.

Lemma in_range_spec lo hi c : in_range lo hi c = true ↔ (lo ≤ c ∧ c ≤ hi)%N.
Proof. unfold in_range. rewrite andb_true_iff, !N.leb_le. reflexivity. Qed.

Lemma ascii_lower_char_no_capital (c : N) :
  in_range (ch "A") (ch "Z") (ascii_lower_char c) = false.
Proof.
  unfold ascii_lower_char.
  destruct (in_range (ch "A") (ch "Z") c) eqn:E; [|exact E].
  apply in_range_spec in E. change (ch "A") with 65%N in *. change (ch "Z") with 90%N in *.
  apply not_true_is_false. rewrite in_range_spec. lia.
Qed.

Lemma ascii_lower_no_capital (s : str) :
  Forall (λ c, in_range (ch "A") (ch "Z") c = false) (map ascii_lower_char s).
Proof.
  apply Forall_forall. intros c Hc.
  apply list_elem_of_fmap in Hc as (y & -> & _).
  apply ascii_lower_char_no_capital.
Qed.

(** Searched in a lowercased text, the heading in capitals is never a
    boundary: the end of a section is decided by the three literal headers
    alone. *)
Lemma caps_heading_never_found (text : str) (start_pos end_pos : nat) :
  find_end end_patterns (drop start_pos (lower (UnicodeData := ascii_data) text))
           start_pos end_pos
  = find_end [heading "references"; heading "conclusion"; heading "discussion"]
             (drop start_pos (lower (UnicodeData := ascii_data) text))
             start_pos end_pos.
Proof.
  unfold end_patterns. cbn [find_end]. unfold re_search.
  rewrite caps_heading_needs_capital; [reflexivity|].
  apply Forall_drop, ascii_lower_no_capital.
Qed.

(** The amended C5 on a text: the introduction of [example_caps] under the
    cap of the orchestrator. *)
Lemma extract_section_by_pattern_spec_witness :
  (0 ≤ 1500)%Z
  ∧ extract_section_by_pattern (U := ascii_data) example_caps [heading "introduction"] 1500
    = Some (cps "This paper studies X.
MATERIALS AND METHODS
We did Y.")
  ∧ (Z.of_nat (length (cps "This paper studies X.
MATERIALS AND METHODS
We did Y.")) ≤ 1500)%Z.
Proof.
  split; [lia|]. split; [vm_compute; reflexivity|].
  apply (proj2 (extract_section_by_pattern_spec (U := ascii_data) example_caps
                  [heading "introduction"] 1500)); [lia | vm_compute; reflexivity].
Defined.

(** C5 as stated fails under a negative cap: [section[:-1]] drops the last
    character, and what is left is longer than the cap. *)
Lemma extract_section_negative_cap :
  extract_section_by_pattern (U := ascii_data) example_caps [heading "introduction"] (-1)
  = Some (cps "This paper studies X.
MATERIALS AND METHODS
We did Y")
  ∧ ¬ (Z.of_nat (length (cps "This paper studies X.
MATERIALS AND METHODS
We did Y")) ≤ -1)%Z.
Proof. split; [vm_compute; reflexivity | vm_compute; intros H; apply H; reflexivity]. Qed.

(** C6 on a text with a heading in capitals behind the introduction: the
    heading is found in the text behind the start position, it is not found
    in the lowercased copy the extractor searches, and the section runs
    over it to the end of the text. *)
Theorem caps_heading_not_a_boundary :
  re_search (heading "introduction") (lower (UnicodeData := ascii_data) example_caps)
  = Some (17, 31)
  ∧ re_search caps_heading (drop 31 example_caps) = Some (21, 44)
  ∧ re_search caps_heading (drop 31 (lower (UnicodeData := ascii_data) example_caps)) = None
  ∧ strip (slice example_caps 31 (31 + 21)) = cps "This paper studies X."
  ∧ extract_section_by_pattern (U := ascii_data) example_caps [heading "introduction"] 1500
    = Some (cps "This paper studies X.
MATERIALS AND METHODS
We did Y.").
Proof. repeat split; vm_compute; reflexivity. Qed.

(** ** The orchestrator *)

Section Orchestrator.
Context {U : UnicodeData}.

Lemma or_default_section text patterns fallback :
  or_default (extract_section_by_pattern text patterns 1500) fallback
  = default fallback (extract_section_by_pattern text patterns 1500).
Proof.
  destruct (extract_section_by_pattern text patterns 1500) as [section|] eqn:E;
    [|reflexivity].
  apply extract_section_nonempty in E; [|lia].
  simpl. destruct section; [congruence | reflexivity].
Qed.

Ltac lookup_field :=
  unfold extract_document_structure;
  repeat (rewrite lookup_insert_ne by (vm_compute; discriminate));
  rewrite lookup_insert_eq.

(** C4, as amended: in the mapping of the orchestrator the four required
    fields are strings: the title, and for Introduction, Thoughts and
    Answers the section found or, when the extractor returns null, the
    fallback string of the field, which names the section and not always
    the field; Further_Reading, Images and Further_Development hold what
    their extractors return, null when nothing is found. *)
Theorem extract_document_structure_fields (clean_text : str) :
  let data := extract_document_structure clean_text in
  data !! cps "document" = Some (VStr (extract_title clean_text))
  ∧ data !! cps "Introduction"
    = Some (VStr (default (cps "Introduction section not found in document")
                    (extract_section_by_pattern clean_text intro_patterns 1500)))
  ∧ data !! cps "Thoughts"
    = Some (VStr (default (cps "Methods/Discussion section not found in document")
                    (extract_section_by_pattern clean_text thought_patterns 1500)))
  ∧ data !! cps "Answers"
    = Some (VStr (default (cps "Results/Conclusions section not found in document")
                    (extract_section_by_pattern clean_text answer_patterns 1500)))
  ∧ data !! cps "Further_Reading"
    = Some (match extract_references clean_text with
            | Some refs => VStr refs | None => VNone end)
  ∧ data !! cps "Images"
    = Some (match extract_figures_and_images clean_text with
            | Some figures => VStr figures | None => VNone end)
  ∧ data !! cps "Further_Development"
    = Some (match extract_section_by_pattern clean_text limitation_patterns 1000 with
            | Some limitations => VStr limitations | None => VNone end)
  ∧ Forall (λ name, ∃ s, data !! name = Some (VStr s)) required_fields.
Proof.
  intros data.
  assert (Hdoc : data !! cps "document" = Some (VStr (extract_title clean_text))).
  { unfold data. lookup_field. reflexivity. }
  assert (Hintro : data !! cps "Introduction"
    = Some (VStr (default intro_not_found
                    (extract_section_by_pattern clean_text intro_patterns 1500)))).
  { unfold data. lookup_field. rewrite or_default_section. reflexivity. }
  assert (Hthoughts : data !! cps "Thoughts"
    = Some (VStr (default thoughts_not_found
                    (extract_section_by_pattern clean_text thought_patterns 1500)))).
  { unfold data. lookup_field. rewrite or_default_section. reflexivity. }
  assert (Hanswers : data !! cps "Answers"
    = Some (VStr (default answers_not_found
                    (extract_section_by_pattern clean_text answer_patterns 1500)))).
  { unfold data. lookup_field. rewrite or_default_section. reflexivity. }
  split; [exact Hdoc|]. split; [exact Hintro|]. split; [exact Hthoughts|].
  split; [exact Hanswers|].
  split; [unfold data; lookup_field; reflexivity|].
  split; [unfold data; lookup_field; reflexivity|].
  split; [unfold data; lookup_field; reflexivity|].
  repeat constructor; eauto.
Qed.

End Orchestrator.

(** C4 as stated fails where the fallback is read as the name of the field
    before " section not found in document": on the empty text the fallback
    of Thoughts names Methods/Discussion and the fallback of Answers names
    Results/Conclusions. *)
Lemma fallback_is_not_the_field_name :
  let data := extract_document_structure (U := ascii_data) [] in
  data !! cps "Thoughts"
  = Some (VStr (cps "Methods/Discussion section not found in document"))
  ∧ data !! cps "Thoughts" ≠ Some (VStr (cps "Thoughts section not found in document"))
  ∧ data !! cps "Answers"
    = Some (VStr (cps "Results/Conclusions section not found in document"))
  ∧ data !! cps "Answers" ≠ Some (VStr (cps "Answers section not found in document")).
Proof. repeat split; vm_compute; solve [reflexivity | discriminate]. Qed.

(** C1 on the example scenario: the normalizer joins the lines of the text
    into one, which holds the marker "issn", so the title is the sentinel,
    and no section pattern is found in it, so Introduction, Thoughts and
    Answers are their fallback strings and Further_Reading is null.  On the
    text as it was before the normalizer, the orchestrator finds what the
    scenario expects. *)
Theorem example_scenario :
  let clean_text := clean_pdf_text (U := ascii_data) example_raw in
  let data := extract_document_structure (U := ascii_data) clean_text in
  let kept := extract_document_structure (U := ascii_data) example_raw in
  clean_text = cps "ISSN 1234 Introduction This paper studies X. Methods We did Y. Results We found Z. References 1. Smith et al., 2020, a long citation line over twenty chars."
  ∧ data !! cps "document" = Some (VStr (cps "Document title not found"))
  ∧ data !! cps "Introduction"
    = Some (VStr (cps "Introduction section not found in document"))
  ∧ data !! cps "Thoughts"
    = Some (VStr (cps "Methods/Discussion section not found in document"))
  ∧ data !! cps "Answers"
    = Some (VStr (cps "Results/Conclusions section not found in document"))
  ∧ data !! cps "Further_Reading" = Some VNone
  ∧ kept !! cps "document" = Some (VStr (cps "Introduction"))
  ∧ kept !! cps "Answers" = Some (VStr (cps "We found Z."))
  ∧ kept !! cps "Further_Reading"
    = Some (VStr (cps "1. Smith et al., 2020, a long citation line over twenty chars.")).
Proof. repeat split; vm_compute; reflexivity. Qed.

(** A general companion of the example: with the ASCII tables, whatever the
    raw text, no section is found behind the normalizer. *)
Lemma ascii_lower_no_newline (s : str) :
  NL ∉ s → NL ∉ lower (UnicodeData := ascii_data) s.
Proof.
  intros Hs H. apply list_elem_of_fmap in H as (y & Hy & Hin).
  unfold ascii_lower_char in Hy.
  destruct (in_range (ch "A") (ch "Z") y) eqn:E.
  - apply in_range_spec in E. change (ch "A") with 65%N in E. unfold NL in Hy. lia.
  - subst y. exact (Hs Hin).
Qed.

Lemma no_section_behind_normalizer (raw_text : str) (patterns : list regex)
    (max_chars : Z) :
  Forall (λ p, needs_first NL p = true) patterns →
  extract_section_by_pattern (U := ascii_data)
    (clean_pdf_text (U := ascii_data) raw_text) patterns max_chars = None.
Proof.
  intros Hpats. apply extract_section_not_found.
  eapply Forall_impl; [exact Hpats|]. intros p Hp. simpl in Hp.
  apply (re_search_needs_first NL); [exact Hp|].
  apply ascii_lower_no_newline, clean_pdf_text_newline_free.
Qed.

(** ** Validation *)

Lemma concat_map_nil {T V} (f : T → list V) (l : list T) :
  concat (map f l) = [] ↔ Forall (λ x, f x = []) l.
Proof.
  induction l as [|a l IH]; simpl.
  - split; [constructor | reflexivity].
  - split.
    + intros H. apply app_eq_nil in H as [Ha Hl]. constructor; [exact Ha | apply IH, Hl].
    + intros H. inversion H as [|? ? Ha Hl]; subst. rewrite Ha. apply IH, Hl.
Qed.

Lemma elem_of_concat_map {T V} (f : T → list V) (l : list T) (x : T) (y : V) :
  x ∈ l → y ∈ f x → y ∈ concat (map f l).
Proof.
  intros Hx Hy. induction Hx as [x l | x a l _ IH]; simpl; apply elem_of_app; auto.
Qed.

(** The schema reads a value as [s] exactly when the value reads as [s]. *)
Lemma str_of_value_reads (value : pyval) (s : str) :
  str_of_value value = inr s ↔ reads_as value s.
Proof.
  unfold reads_as. split.
  - destruct value as [| | | |s0|b|b| |]; simpl; intros H; try discriminate.
    + left. congruence.
    + destruct (utf8_decode b) eqn:E; [|discriminate].
      right. exists b. split; [left; reflexivity | congruence].
    + destruct (utf8_decode b) eqn:E; [|discriminate].
      right. exists b. split; [right; reflexivity | congruence].
  - intros [-> | (b & [-> | ->] & E)]; simpl; rewrite ?E; reflexivity.
Qed.

Lemma reads_as_str (s : str) : reads_as (VStr s) s.
Proof. left. reflexivity. Qed.

Lemma required_ok (data : dict) (name : str) :
  error_of name (required_str data name) = []
  ↔ ∃ value s, data !! name = Some value ∧ reads_as value s.
Proof.
  unfold required_str. destruct (data !! name) as [v|]; simpl.
  - destruct (str_of_value v) as [e|s] eqn:E; simpl; split.
    + discriminate.
    + intros (v' & s & Hv & Hr). apply str_of_value_reads in Hr. congruence.
    + intros _. exists v, s. split; [reflexivity | apply str_of_value_reads, E].
    + reflexivity.
  - split; [discriminate | intros (v & s & H & _); discriminate].
Qed.

Lemma optional_str_value (data : dict) (name : str) (value : pyval) :
  data !! name = Some value → value ≠ VNone →
  optional_str data name
  = match str_of_value value with inr s => inr (Some s) | inl e => inl e end.
Proof.
  intros H Hv. unfold optional_str. rewrite H.
  destruct value; try reflexivity. congruence.
Qed.

Lemma optional_ok (data : dict) (name : str) :
  error_of name (optional_str data name) = [] ↔
  data !! name = None ∨ data !! name = Some VNone
  ∨ ∃ value s, data !! name = Some value ∧ reads_as value s.
Proof.
  destruct (data !! name) as [v|] eqn:Hv.
  - assert (Hnone : v = VNone ∨ v ≠ VNone)
      by (destruct v; auto; right; discriminate).
    destruct Hnone as [-> | Hne].
    + unfold optional_str. rewrite Hv. simpl. split; auto.
    + rewrite (optional_str_value _ _ _ Hv Hne).
      destruct (str_of_value v) as [e|s] eqn:E; simpl; split.
      * discriminate.
      * intros [H | [H | (v' & s & H & Hr)]]; [discriminate | congruence |].
        apply str_of_value_reads in Hr. congruence.
      * intros _. right. right. exists v, s.
        split; [reflexivity | apply str_of_value_reads, E].
      * reflexivity.
  - unfold optional_str. rewrite Hv. simpl. split; auto.
Qed.

Lemma field_errors_nil (data : dict) : field_errors data = [] ↔ valid data.
Proof.
  unfold field_errors, valid. split.
  - intros H. apply app_eq_nil in H as [Hreq Hopt].
    apply concat_map_nil in Hreq. apply concat_map_nil in Hopt. split.
    + eapply Forall_impl; [exact Hreq|]. intros name. apply required_ok.
    + eapply Forall_impl; [exact Hopt|]. intros name. apply optional_ok.
  - intros [Hreq Hopt].
    assert (E1 : concat (map (λ name, error_of name (required_str data name))
                             required_fields) = []).
    { apply concat_map_nil. eapply Forall_impl; [exact Hreq|]. intros name. apply required_ok. }
    assert (E2 : concat (map (λ name, error_of name (optional_str data name))
                             optional_fields) = []).
    { apply concat_map_nil. eapply Forall_impl; [exact Hopt|]. intros name. apply optional_ok. }
    rewrite E1, E2. reflexivity.
Qed.

Lemma create_document_info_fails (data : dict) :
  field_errors data ≠ [] →
  create_document_info data = inl (ValidationError (field_errors data)).
Proof.
  intros H. unfold create_document_info.
  destruct (field_errors data); [congruence | reflexivity].
Qed.

Lemma get_str_lookup (data : dict) (name : string) :
  (∃ value s, data !! cps name = Some value ∧ reads_as value s) →
  ∃ value, data !! cps name = Some value ∧ reads_as value (get_str data name).
Proof.
  intros (v & s & Hv & Hr). exists v. split; [exact Hv|].
  unfold get_str, required_str. rewrite Hv.
  rewrite (proj2 (str_of_value_reads v s) Hr). exact Hr.
Qed.

(** C3, as amended: validation fails, naming the field, for every mapping
    in which one of document, Introduction, Thoughts and Answers is
    missing; it succeeds exactly when each of the four reads as a string,
    that is, is a string, the empty string included, or [bytes] or a
    [bytearray] that decode as UTF-8, and each optional field is absent,
    null or reads as a string; the record then holds the four strings as
    they are read. *)
Theorem create_document_info_spec (data : dict) :
  (∀ name, name ∈ required_fields → data !! name = None →
     ∃ errors, create_document_info data = inl (ValidationError errors)
               ∧ (name, Missing) ∈ errors)
  ∧ ((∃ info, create_document_info data = inr info) ↔ valid data)
  ∧ (∀ info, create_document_info data = inr info →
       (∃ value, data !! cps "document" = Some value
                 ∧ reads_as value (document info))
       ∧ (∃ value, data !! cps "Introduction" = Some value
                   ∧ reads_as value (Introduction info))
       ∧ (∃ value, data !! cps "Thoughts" = Some value
                   ∧ reads_as value (Thoughts info))
       ∧ (∃ value, data !! cps "Answers" = Some value
                   ∧ reads_as value (Answers info))).
Proof.
  split; [|split].
  - intros name Hname Hmissing. exists (field_errors data).
    assert (Hin : (name, Missing) ∈ field_errors data).
    { unfold field_errors. apply elem_of_app. left.
      apply (elem_of_concat_map _ _ name); [exact Hname|].
      unfold required_str. rewrite Hmissing. simpl. apply list_elem_of_here. }
    split; [|exact Hin].
    apply create_document_info_fails. intros E. rewrite E in Hin.
    apply elem_of_nil in Hin. exact Hin.
  - rewrite <- field_errors_nil. unfold create_document_info.
    destruct (field_errors data); split; eauto; try discriminate.
    intros [info H]. discriminate.
  - intros info H.
    assert (Hvalid : valid data).
    { apply field_errors_nil. unfold create_document_info in H.
      destruct (field_errors data); [reflexivity | discriminate]. }
    destruct Hvalid as [Hreq _].
    unfold create_document_info in H.
    destruct (field_errors data); [|discriminate]. injection H as <-. simpl.
    rewrite Forall_forall in Hreq.
    split; [|split; [|split]]; apply get_str_lookup, Hreq;
      unfold required_fields; set_solver.
Qed.

Lemma valid_of_option (o : option str) :
  Some (of_option o) = Some VNone
  ∨ ∃ value s, Some (of_option o) = Some value ∧ reads_as value s.
Proof.
  destruct o as [s|]; simpl; [right | left; reflexivity].
  exists (VStr s), s. split; [reflexivity | apply reads_as_str].
Qed.

(** The mapping of the orchestrator always validates. *)
Lemma extract_document_structure_valid {U : UnicodeData} (clean_text : str) :
  valid (extract_document_structure clean_text).
Proof.
  unfold valid, required_fields, optional_fields, extract_document_structure.
  split; repeat (apply List.Forall_cons; [|]); try apply List.Forall_nil;
    repeat (rewrite lookup_insert_ne by (vm_compute; discriminate));
    first [ rewrite lookup_insert_eq | rewrite lookup_empty ];
    first [ left; reflexivity
          | right; apply valid_of_option
          | eexists _, _; split; [reflexivity | apply reads_as_str] ].
Qed.

(** Without a model the pipeline ends in a record, whatever text the reader
    returned. *)
Lemma extract_document_info_heuristics {U : UnicodeData}
    (json_loads : str → result pyval) (raw_text : str) :
  ∃ info, extract_document_info json_loads (inr raw_text) false None = inr info.
Proof.
  unfold extract_document_info. simpl.
  destruct (field_errors_nil (extract_document_structure (clean_pdf_text raw_text)))
    as [_ H].
  unfold create_document_info.
  rewrite (H (extract_document_structure_valid _)). eauto.
Qed.

(** The amended C3 on a mapping whose title comes as [bytes]: the bytes
    decode, the mapping validates. *)
Lemma create_document_info_spec_witness :
  valid example_bytes_title
  ∧ ∃ info, create_document_info example_bytes_title = inr info.
Proof.
  assert (H : valid example_bytes_title).
  { unfold valid, required_fields, optional_fields. split.
    - apply List.Forall_cons.
      + exists (VBytes [x43; x61; x66; xc3; xa9]%byte), [67; 97; 102; 233]%N.
        split; [reflexivity|]. right. eexists. split; [left; reflexivity | reflexivity].
      + repeat (apply List.Forall_cons;
                [eexists _, _; split; [vm_compute; reflexivity | apply reads_as_str]|]).
        apply List.Forall_nil.
    - repeat (apply List.Forall_cons; [left; reflexivity|]). apply List.Forall_nil. }
  split; [exact H|].
  apply (proj1 (proj2 (create_document_info_spec _))). exact H.
Defined.

(** C3 as stated fails: a mapping whose title is the empty string
    validates, and a mapping whose title is there but null does not. *)
Lemma create_document_info_empty_title :
  example_empty_title !! cps "document" = Some (VStr [])
  ∧ (∃ info, create_document_info example_empty_title = inr info ∧ document info = [])
  ∧ example_null_title !! cps "document" = Some VNone
  ∧ create_document_info example_null_title
    = inl (ValidationError [(cps "document", StringType)]).
Proof.
  split; [vm_compute; reflexivity|]. split; [|split; vm_compute; reflexivity].
  eexists. split; [vm_compute; reflexivity | reflexivity].
Qed.

(** ** The enhancement merge *)

Lemma find_from_absent c : ∀ s i, c ∉ s → find_from c s i = (-1)%Z.
Proof.
  induction s as [|x s IH]; intros i Hs; simpl; [reflexivity|].
  apply not_elem_of_cons in Hs as [Hx Hs].
  destruct (N.eqb_spec x c); [congruence | apply IH, Hs].
Qed.

Lemma rfind_from_bound c : ∀ s i last,
  (0 ≤ i)%Z → (-1 ≤ last)%Z → (-1 ≤ rfind_from c s i last)%Z.
Proof.
  induction s as [|x s IH]; intros i last Hi Hlast; simpl; [exact Hlast|].
  apply IH; [lia|]. destruct (x =? c)%N; lia.
Qed.

(** The second test of the brace check never fails: [rfind] is at least
    -1, so [json_end] is at least 0. *)
Lemma json_end_not_minus_one (s : str) :
  ((str_rfind (ch "}") s + 1 =? -1) = false)%Z.
Proof.
  apply Z.eqb_neq. pose proof (rfind_from_bound (ch "}") s 0 (-1)) as H.
  unfold str_rfind. lia.
Qed.

Lemma json_content_no_brace (s : str) :
  ch "{" ∉ s → ∃ e : Exception, json_content s = inl (Exc e).
Proof.
  intros Hs. unfold json_content, str_find.
  rewrite find_from_absent by exact Hs. simpl. eauto.
Qed.

Lemma not_null_string_spec (v : pyval) :
  not_null_string v = true ↔ v ≠ VStr (cps "null").
Proof.
  destruct v; simpl; try (split; [discriminate | reflexivity]).
  case_bool_decide as E; simpl; split; congruence.
Qed.

Section MergeLoop.
Implicit Types (data : dict) (l : list (str * pyval)).

Lemma merge_cons data key value l :
  merge data ((key, value) :: l)
  = merge (if kept value then <[key := value]> data else data) l.
Proof. reflexivity. Qed.

Lemma merge_lookup_absent : ∀ l data key,
  key ∉ l.*1 → merge data l !! key = data !! key.
Proof.
  induction l as [|[k v] l IH]; intros data key Hkey; [reflexivity|].
  rewrite fmap_cons in Hkey. simpl in Hkey.
  apply not_elem_of_cons in Hkey as [Hne Hkey].
  rewrite merge_cons, IH by exact Hkey.
  destruct (kept v); [apply lookup_insert_ne; congruence | reflexivity].
Qed.

Lemma merge_lookup_present : ∀ l data key value,
  NoDup l.*1 → (key, value) ∈ l →
  merge data l !! key = if kept value then Some value else data !! key.
Proof.
  induction l as [|[k v] l IH]; intros data key value Hdup Hin.
  - apply elem_of_nil in Hin. destruct Hin.
  - rewrite fmap_cons in Hdup. simpl in Hdup.
    apply NoDup_cons in Hdup as [Hk Hdup].
    rewrite merge_cons. apply elem_of_cons in Hin as [[= -> ->] | Hin].
    + rewrite merge_lookup_absent by exact Hk.
      destruct (kept v); [apply lookup_insert_eq | reflexivity].
    + rewrite (IH _ key value Hdup Hin).
      assert (key ≠ k).
      { intros ->. apply Hk. apply list_elem_of_fmap. exists (k, value). auto. }
      destruct (kept value); [reflexivity|].
      destruct (kept v); [apply lookup_insert_ne; congruence | reflexivity].
Qed.

(** The merged mapping, key by key. *)
Lemma merge_lookup data (llm : dict) key :
  merge data (map_to_list llm) !! key
  = match llm !! key with
    | Some value => if kept value then Some value else data !! key
    | None => data !! key
    end.
Proof.
  destruct (llm !! key) as [value|] eqn:E.
  - apply merge_lookup_present; [apply NoDup_fst_map_to_list|].
    apply elem_of_map_to_list. exact E.
  - apply merge_lookup_absent. intros H.
    apply list_elem_of_fmap in H as ([k v] & -> & H).
    apply elem_of_map_to_list in H. simpl in E. congruence.
Qed.

End MergeLoop.

Section Enhancement.
Variable json_loads : str → result pyval.
Implicit Types (data : dict) (text : str) (f : str → result pyval).

Lemma enhance_falls_back data text f (e : Exception) :
  enhance_body json_loads data text f = inl (Exc e) →
  enhance_with_llm json_loads data text (Some f) = inr data.
Proof. intros H. unfold enhance_with_llm. rewrite H. reflexivity. Qed.

Lemma enhance_lets_through data text f (b : BaseException) :
  enhance_body json_loads data text f = inl (Base b) →
  enhance_with_llm json_loads data text (Some f) = inl (Base b).
Proof. intros H. unfold enhance_with_llm. rewrite H. reflexivity. Qed.

Lemma model_data_fails data text f (e : Exception) :
  model_data json_loads text f = inl (Exc e) →
  enhance_with_llm json_loads data text (Some f) = inr data.
Proof.
  intros H. apply (enhance_falls_back _ _ _ e).
  unfold enhance_body. rewrite H. reflexivity.
Qed.

Lemma model_raises data text f (r : raised) :
  f (create_llm_prompt text) = inl r →
  enhance_body json_loads data text f = inl r.
Proof. intros H. unfold enhance_body, model_data. rewrite H. reflexivity. Qed.

(** C8, as amended: the enhancement merge returns a mapping, or lets
    through an exception that does not derive from [Exception]
    ([KeyboardInterrupt], [SystemExit], [GeneratorExit]); no exception that
    derives from [Exception] passes its boundary.  The mapping is the
    heuristic one as it was whenever the body of the merge fails with such
    an exception: when the model function raises it, when its string answer
    holds no opening brace, when the text between the braces is refused by
    the decoder, and when its answer is neither a string nor a mapping.  An
    exception of the model function that does not derive from [Exception]
    is raised by the merge as it is. *)
Theorem enhance_with_llm_degrades data text f :
  ((∃ out, enhance_with_llm json_loads data text (Some f) = inr out)
   ∨ (∃ b, enhance_with_llm json_loads data text (Some f) = inl (Base b)))
  ∧ (∀ e : Exception, enhance_with_llm json_loads data text (Some f) ≠ inl (Exc e))
  ∧ (∀ e : Exception, enhance_body json_loads data text f = inl (Exc e) →
          enhance_with_llm json_loads data text (Some f) = inr data)
  ∧ (∀ e : Exception, f (create_llm_prompt text) = inl (Exc e) →
          enhance_with_llm json_loads data text (Some f) = inr data)
  ∧ (∀ s, f (create_llm_prompt text) = inr (VStr s) → ch "{" ∉ s →
          enhance_with_llm json_loads data text (Some f) = inr data)
  ∧ (∀ s content (e : Exception), f (create_llm_prompt text) = inr (VStr s) →
          json_content s = inr content → json_loads content = inl (Exc e) →
          enhance_with_llm json_loads data text (Some f) = inr data)
  ∧ (∀ v, f (create_llm_prompt text) = inr v →
          (∀ s, v ≠ VStr s) → (∀ d, v ≠ VDict d) →
          enhance_with_llm json_loads data text (Some f) = inr data)
  ∧ (∀ b : BaseException, f (create_llm_prompt text) = inl (Base b) →
          enhance_with_llm json_loads data text (Some f) = inl (Base b)).
Proof.
  split; [|split; [|split; [|split; [|split; [|split; [|split]]]]]].
  - unfold enhance_with_llm, try_except.
    destruct (enhance_body json_loads data text f) as [[e|b]|out]; eauto.
  - intros e. unfold enhance_with_llm, try_except.
    destruct (enhance_body json_loads data text f) as [[e'|b]|out]; discriminate.
  - intros e. apply enhance_falls_back.
  - intros e H. apply (enhance_falls_back _ _ _ e), model_raises, H.
  - intros s H Hs. destruct (json_content_no_brace s Hs) as [e He].
    apply (model_data_fails _ _ _ e).
    unfold model_data. rewrite H. simpl. rewrite He. reflexivity.
  - intros s content e H Hc He. apply (model_data_fails _ _ _ e).
    unfold model_data. rewrite H. simpl. rewrite Hc. simpl. exact He.
  - intros v H Hs Hd. apply (enhance_falls_back _ _ _ AttributeError).
    unfold enhance_body, model_data. rewrite H. simpl.
    destruct v; try reflexivity; exfalso; [eapply Hs | eapply Hd]; reflexivity.
  - intros b H. apply enhance_lets_through, model_raises, H.
Qed.

(** C9: without a model function the enhancement merge returns the
    heuristic mapping as it is. *)
Theorem enhance_with_llm_no_model data text :
  enhance_with_llm json_loads data text None = inr data.
Proof. reflexivity. Qed.

(** C10: when the model delivers a mapping, the result holds under each key
    the value of the model if that value is truthy and not the string
    "null", and the value of the heuristic mapping otherwise: a key whose
    model value is falsy or "null" is left as the heuristics had it. *)
Theorem enhance_with_llm_merge data text f (llm : dict) :
  model_data json_loads text f = inr (VDict llm) →
  ∃ out, enhance_with_llm json_loads data text (Some f) = inr out
    ∧ (∀ key, out !! key =
         match llm !! key with
         | Some value =>
             if truthy value && not_null_string value then Some value
             else data !! key
         | None => data !! key
         end)
    ∧ (∀ key value, llm !! key = Some value →
         truthy value = false ∨ value = VStr (cps "null") →
         out !! key = data !! key)
    ∧ (∀ key, out !! key ≠ data !! key →
         ∃ value, llm !! key = Some value ∧ out !! key = Some value
                  ∧ truthy value = true ∧ value ≠ VStr (cps "null")).
Proof.
  intros H. exists (merge data (map_to_list llm)).
  assert (E : ∀ key, merge data (map_to_list llm) !! key =
         match llm !! key with
         | Some value =>
             if truthy value && not_null_string value then Some value
             else data !! key
         | None => data !! key
         end) by (intros key; apply merge_lookup).
  split; [|split; [exact E | split]].
  - unfold enhance_with_llm, enhance_body. rewrite H. reflexivity.
  - intros key value Hkey Hv. rewrite E, Hkey.
    destruct Hv as [-> | ->]; [reflexivity|].
    replace (not_null_string (VStr (cps "null"))) with false by reflexivity.
    rewrite andb_false_r. reflexivity.
  - intros key Hne. rewrite E in Hne |- *.
    destruct (llm !! key) as [value|]; [|congruence].
    destruct (truthy value) eqn:Ht; simpl in *; [|congruence].
    destruct (not_null_string value) eqn:Hn; [|congruence].
    exists value. split; [reflexivity|]. split; [reflexivity|].
    split; [exact Ht | apply not_null_string_spec, Hn].
Qed.

End Enhancement.

(** C8 on a model that answers in prose: nothing to decode, the heuristic
    mapping comes back. *)
Lemma enhance_with_llm_degrades_witness :
  example_prose_model (create_llm_prompt []) = inr (VStr (cps "I cannot read this document."))
  ∧ (ch "{" ∉ cps "I cannot read this document.")
  ∧ enhance_with_llm json_loads_flat example_data [] (Some example_prose_model)
    = inr example_data.
Proof.
  assert (H : ch "{" ∉ cps "I cannot read this document.").
  { intros H. vm_compute in H. repeat (apply elem_of_cons in H as [H | H]; [discriminate|]).
    apply elem_of_nil in H. exact H. }
  split; [reflexivity|]. split; [exact H|].
  apply (proj1 (proj2 (proj2 (proj2 (proj2
           (enhance_with_llm_degrades json_loads_flat example_data [] example_prose_model)))))
           (cps "I cannot read this document.")); [reflexivity | exact H].
Defined.

(** C8 as stated fails: a model function that is interrupted raises
    [KeyboardInterrupt], which [except Exception] does not catch; the merge
    raises it past its boundary and returns no mapping. *)
Lemma enhance_with_llm_interrupted :
  example_interrupted_model (create_llm_prompt []) = inl (Base KeyboardInterrupt)
  ∧ enhance_with_llm json_loads_flat example_data [] (Some example_interrupted_model)
    = inl (Base KeyboardInterrupt)
  ∧ enhance_with_llm json_loads_flat example_data [] (Some example_interrupted_model)
    ≠ inr example_data.
Proof. split; [reflexivity|]. split; [reflexivity | discriminate]. Qed.

(** C10 on a model that answers with a JSON object in prose: the title and
    Answers_I of the model are taken, its "null", its empty string and its
    null are not. *)
Lemma enhance_with_llm_merge_witness :
  model_data json_loads_flat [] example_model = inr (VDict example_llm)
  ∧ ∃ out, enhance_with_llm json_loads_flat example_data [] (Some example_model) = inr out
      ∧ out !! cps "document" = Some (VStr (cps "A study of X"))
      ∧ out !! cps "Answers_I" = Some (VStr (cps "Z holds"))
      ∧ out !! cps "Hallmarks" = None
      ∧ out !! cps "Images" = Some VNone
      ∧ out !! cps "Ependymoma" = None.
Proof.
  assert (H : model_data json_loads_flat [] example_model = inr (VDict example_llm))
    by (vm_compute; reflexivity).
  split; [exact H|].
  destruct (enhance_with_llm_merge json_loads_flat example_data [] example_model
              example_llm H) as (out & Hout & Hkeys & _).
  exists out. split; [exact Hout|].
  repeat split; rewrite Hkeys; vm_compute; reflexivity.
Defined.

(** * Further properties of the module *)

(** ** Trimming *)

Lemma drop_while_head p s c : head (drop_while p s) = Some c → p c = false.
Proof.
  induction s as [|x s IH]; simpl; [discriminate|].
  destruct (p x) eqn:E; [exact IH|]. simpl. congruence.
Qed.

Lemma drop_while_id p s : (∀ c, head s = Some c → p c = false) → drop_while p s = s.
Proof.
  destruct s as [|x s]; simpl; [reflexivity|]. intros H.
  rewrite (H x eq_refl). reflexivity.
Qed.

Lemma drop_while_nil p s : drop_while p s = [] ↔ Forall (λ c, p c = true) s.
Proof.
  induction s as [|x s IH]; simpl.
  - split; [constructor | reflexivity].
  - destruct (p x) eqn:E.
    + rewrite IH. split; [constructor; assumption | inversion 1; assumption].
    + split; [discriminate | inversion 1; congruence].
Qed.

Lemma rstrip_prefix s : rstrip s `prefix_of` s.
Proof.
  unfold rstrip. apply prefix_suffix_reverse.
  rewrite reverse_involutive. apply drop_while_suffix.
Qed.

Lemma rstrip_last s c : last (rstrip s) = Some c → isspace c = false.
Proof.
  unfold rstrip. rewrite last_reverse. apply drop_while_head.
Qed.

Lemma rstrip_id s : (∀ c, last s = Some c → isspace c = false) → rstrip s = s.
Proof.
  intros H. unfold rstrip. rewrite drop_while_id; [apply reverse_involutive|].
  intros c. rewrite head_reverse. apply H.
Qed.

Lemma prefix_head (s1 s2 : str) c : s1 `prefix_of` s2 → head s1 = Some c → head s2 = Some c.
Proof. intros [k ->] H. destruct s1; [discriminate | exact H]. Qed.

(** What [strip] returns neither starts nor ends with whitespace. *)
Lemma strip_head s c : head (strip s) = Some c → isspace c = false.
Proof.
  intros H. apply (prefix_head _ _ _ (rstrip_prefix _)) in H.
  exact (drop_while_head _ _ _ H).
Qed.

Lemma strip_last s c : last (strip s) = Some c → isspace c = false.
Proof. apply rstrip_last. Qed.

Lemma strip_id s :
  (∀ c, head s = Some c → isspace c = false) →
  (∀ c, last s = Some c → isspace c = false) → strip s = s.
Proof.
  intros Hh Hl. unfold strip, lstrip. rewrite (drop_while_id _ _ Hh).
  apply rstrip_id, Hl.
Qed.

Lemma strip_idemp s : strip (strip s) = strip s.
Proof. apply strip_id; [apply strip_head | apply strip_last]. Qed.

(** [strip] returns the empty text exactly on the texts of whitespace. *)
Lemma strip_nil s : strip s = [] ↔ Forall (λ c, isspace c = true) s.
Proof.
  unfold strip, rstrip, lstrip. split.
  - intros H. apply (f_equal reverse) in H.
    rewrite reverse_involutive, reverse_nil in H.
    apply drop_while_nil in H. rewrite Forall_reverse in H.
    destruct (drop_while isspace s) as [|x l] eqn:E.
    + apply drop_while_nil. exact E.
    + exfalso. inversion H as [|? ? Hx _]; subst.
      assert (Hh : head (drop_while isspace s) = Some x) by (rewrite E; reflexivity).
      apply drop_while_head in Hh. congruence.
  - intros H. apply drop_while_nil in H. rewrite H. reflexivity.
Qed.

Lemma strip_infix s : infix_of (strip s) s.
Proof.
  destruct (rstrip_prefix (lstrip s)) as [r Hr].
  destruct (drop_while_suffix isspace s) as [l Hl].
  exists l, r. unfold strip. fold (lstrip s) in Hl. rewrite <- Hr. exact Hl.
Qed.

(** ** More on the text normalizer *)

Section NormalizerMore.
Context {U : UnicodeData}.

Lemma clean_pdf_text_elem (raw_text : str) c :
  c ∈ clean_pdf_text raw_text → c ∈ re_sub whitespace_run [SP] raw_text.
Proof.
  rewrite clean_pdf_text_strip. intros H. apply strip_elem in H.
  apply re_sub_elem in H as [H | H]; [|apply elem_of_nil in H; destruct H].
  apply re_sub_elem in H as [H | H]; [|apply elem_of_nil in H; destruct H].
  rewrite page_number_pass_inert in H by apply first_pass_no_newline. exact H.
Qed.

(** X1: the cleaned text is trimmed, and the blank is the only whitespace
    character it holds. *)
Theorem clean_pdf_text_trimmed (raw_text : str) :
  (∀ c, head (clean_pdf_text raw_text) = Some c → isspace c = false)
  ∧ (∀ c, last (clean_pdf_text raw_text) = Some c → isspace c = false)
  ∧ Forall (λ c, isspace c = false ∨ c = SP) (clean_pdf_text raw_text).
Proof.
  split; [|split].
  - intros c. unfold clean_pdf_text. apply strip_head.
  - intros c. unfold clean_pdf_text. apply strip_last.
  - apply Forall_forall. intros c Hc. apply clean_pdf_text_elem in Hc.
    pose proof (first_pass_blank_only raw_text) as H.
    rewrite Forall_forall in H. exact (H c Hc).
Qed.

(** A greedy [*] over a class takes a text of the class whole. *)
Lemma star_class_all {T} (p : N → bool) (k : str → option T) : ∀ n s,
  Forall (λ c, p c = true) s → length s ≤ n → is_Some (k []) →
  star_loop (rmatch (Cls p)) k n s = k [].
Proof.
  induction n as [|n IH]; intros s Hs Hn Hk.
  - destruct s; [reflexivity | simpl in Hn; lia].
  - destruct s as [|c s]; simpl.
    + reflexivity.
    + inversion Hs as [|? ? Hc Hs']; subst. rewrite Hc.
      replace (length s <? S (length s)) with true
        by (symmetry; apply Nat.ltb_lt; lia).
      simpl in Hn. rewrite IH by (auto; lia).
      destruct Hk as [x ->]. reflexivity.
Qed.

Lemma first_pass_blank_text (s : str) :
  s ≠ [] → Forall (λ c, isspace c = true) s →
  re_sub whitespace_run [SP] s = [SP].
Proof.
  intros Hne Hs. destruct s as [|c s]; [congruence|].
  inversion Hs as [|? ? Hc Hs']; subst.
  assert (E : re_match_at whitespace_run false (c :: s) = Some (S (length s))).
  { change (re_match_at whitespace_run false (c :: s))
      with (if isspace c
            then star_loop (rmatch (Cls isspace))
                   (λ s', Some (length (c :: s) - length s')) (length s) s
            else None).
    rewrite Hc, star_class_all; [| exact Hs' | lia | eauto ].
    simpl. f_equal; lia. }
  unfold re_sub. destruct (2 * length (c :: s) + 2) as [|fuel] eqn:Ef; [simpl in Ef; lia|].
  cbn [sub_loop search_from]. rewrite E.
  change (drop (0 + S (length s)) (c :: s)) with (drop (length s) s).
  rewrite drop_all. destruct fuel; reflexivity.
Qed.

(** X2: a raw text of whitespace alone is cleaned to the empty text. *)
Theorem clean_pdf_text_blank (raw_text : str) :
  Forall (λ c, isspace c = true) raw_text → clean_pdf_text raw_text = [].
Proof.
  intros Hs. destruct raw_text as [|c s]; [reflexivity|].
  unfold clean_pdf_text. rewrite first_pass_blank_text by (auto; discriminate).
  reflexivity.
Qed.

(** X3: behind the normalizer the text is one line, so the title is the
    whole cleaned text when that holds no skip marker and is longer than 10
    characters, and the sentinel otherwise. *)
Theorem extract_title_cleaned (raw_text : str) :
  extract_title (clean_pdf_text raw_text)
  = if qualifies (clean_pdf_text raw_text) then clean_pdf_text raw_text
    else title_not_found.
Proof.
  unfold extract_title, stripped_lines.
  rewrite split_on_absent by apply clean_pdf_text_newline_free.
  cbn [map]. replace (strip (clean_pdf_text raw_text)) with (clean_pdf_text raw_text)
    by (unfold clean_pdf_text; symmetry; apply strip_idemp).
  unfold qualifies, has_marker.
  destruct (clean_pdf_text raw_text) as [|c s] eqn:E.
  - cbn [List.filter nonempty take title_loop length]. rewrite andb_false_r. reflexivity.
  - cbn [List.filter nonempty take title_loop].
    destruct (existsb _ skip_markers); cbn [negb andb]; [reflexivity|].
    destruct (10 <? length (c :: s)); reflexivity.
Qed.

End NormalizerMore.

(** X2 on a text of blanks, tabs and newlines. *)
Lemma clean_pdf_text_blank_witness :
  Forall (λ c, isspace c = true) example_blank
  ∧ clean_pdf_text (U := ascii_data) example_blank = [].
Proof.
  assert (H : Forall (λ c, isspace c = true) example_blank)
    by (repeat constructor).
  split; [exact H | apply (clean_pdf_text_blank (U := ascii_data) example_blank H)].
Defined.

Section Lines.
Context {U : UnicodeData}.

(** The lines the title is looked for in: trimmed, not empty, without a
    newline, each a piece of the text. *)
Lemma stripped_lines_spec (text : str) :
  Forall (λ line, line ≠ [] ∧ infix_of line text ∧ (NL ∉ line)
                  ∧ strip line = line) (stripped_lines text).
Proof.
  unfold stripped_lines. apply Forall_forall. intros line Hline.
  apply list_elem_of_In, filter_In in Hline as [Hline Hne].
  apply list_elem_of_In, list_elem_of_fmap in Hline as (piece & -> & Hpiece).
  pose proof (proj2 (split_on_pieces NL text)) as H.
  rewrite Forall_forall in H. destruct (H piece Hpiece) as [Hin Hnl].
  split; [apply nonempty_true, Hne|]. split; [|split].
  - eapply infix_of_trans; [apply strip_infix | exact Hin].
  - intros Hc. apply strip_elem in Hc. exact (Hnl Hc).
  - apply strip_idemp.
Qed.

Lemma title_loop_elem (lines : list str) :
  title_loop lines = title_not_found ∨ title_loop lines ∈ lines.
Proof.
  induction lines as [|line rest IH]; [left; reflexivity|].
  cbn [title_loop]. destruct (existsb _ skip_markers).
  - destruct IH as [IH | IH]; [left; exact IH | right; apply elem_of_cons; auto].
  - destruct (10 <? length line); [right; apply list_elem_of_here|].
    destruct IH as [IH | IH]; [left; exact IH | right; apply elem_of_cons; auto].
Qed.

(** X4: the title is the sentinel or a piece of the text as it stands
    there; either way it is one trimmed line. *)
Theorem extract_title_piece (text : str) :
  (extract_title text = title_not_found ∨ infix_of (extract_title text) text)
  ∧ (NL ∉ extract_title text)
  ∧ strip (extract_title text) = extract_title text.
Proof.
  unfold extract_title.
  destruct (title_loop_elem (take 20 (stripped_lines text))) as [-> | H].
  - split; [left; reflexivity|]. split; [|reflexivity].
    intros H. vm_compute in H.
    repeat (apply elem_of_cons in H as [H | H]; [discriminate|]).
    apply elem_of_nil in H. exact H.
  - pose proof (elem_of_sublist _ _ _ H (sublist_take _ 20)) as H'.
    pose proof (stripped_lines_spec text) as Hall. rewrite Forall_forall in Hall.
    destruct (Hall _ H') as (_ & Hin & Hnl & Hstrip). auto.
Qed.

End Lines.

(** ** More on the generic section extractor *)

(** A literal pattern matches where the literal stands. *)
Lemma rmatch_lit {T} (w : str) : ∀ (s : str) (k : str → option T),
  rmatch (lit w) s k = if starts_with w s then k (drop (length w) s) else None.
Proof.
  induction w as [|a w IH]; intros s k; [reflexivity|].
  destruct w as [|a2 w].
  - destruct s as [|x s']; [reflexivity|].
    simpl. rewrite (N.eqb_sym x a). destruct (a =? x)%N; reflexivity.
  - change (lit (a :: a2 :: w)) with (Seq (Chr a) (lit (a2 :: w))).
    destruct s as [|x s']; [reflexivity|].
    cbn [rmatch starts_with length drop]. rewrite (N.eqb_sym x a).
    destruct (a =? x)%N; [|reflexivity].
    rewrite IH. reflexivity.
Qed.

Lemma re_match_at_lit (w s : str) :
  starts_with w s = true → is_Some (re_match_at (lit w) false s).
Proof. intros H. unfold re_match_at. rewrite rmatch_lit, H. simpl. eauto. Qed.

(** Where a literal pattern is not found the literal is not in the text,
    and it is not in the text before the first match. *)
Lemma re_search_lit_None (w s : str) :
  re_search (lit w) s = None → contains w s = false.
Proof.
  intros H. apply not_true_is_false. rewrite contains_spec. intros (j & Hj & Hw).
  pose proof (search_from_None _ _ _ _ H j Hj) as Hm. simpl in Hm.
  destruct (re_match_at_lit _ _ Hw) as [x Hx]. congruence.
Qed.

Lemma re_search_lit_before (w s : str) (i e : nat) :
  w ≠ [] → re_search (lit w) s = Some (i, e) → contains w (take i s) = false.
Proof.
  intros Hw H. apply search_from_Some in H as (i' & len & Hi & _ & _ & _ & Hbefore).
  simpl in Hi. subst i'.
  apply not_true_is_false. rewrite contains_spec. intros (j & Hj & Hs).
  assert (Hlt : j < i).
  { apply starts_with_length in Hs. rewrite length_drop, length_take in *.
    destruct w; [congruence|]. simpl in Hs. lia. }
  rewrite skipn_firstn_comm in Hs. apply starts_with_take in Hs.
  specialize (Hbefore j Hlt). simpl in Hbefore.
  destruct (re_match_at_lit _ _ Hs) as [x Hx]. congruence.
Qed.

Section SectionsMore.
Context {U : UnicodeData}.

Lemma section_at_infix (text text_lower : str) (start_pos : nat) :
  infix_of (section_at text text_lower start_pos) text.
Proof.
  unfold section_at. eapply infix_of_trans; [apply strip_infix | apply slice_infix].
Qed.

(** X5: a section that is returned is a piece of the text as it stands
    there, in its own case, and does not start with whitespace. *)
Theorem extract_section_piece (text : str) (patterns : list regex) (max_chars : Z)
    (section : str) :
  extract_section_by_pattern text patterns max_chars = Some section →
  infix_of section text ∧ ∀ c, head section = Some c → isspace c = false.
Proof.
  intros H. apply section_loop_Some in H as (p & span & _ & _ & ->). split.
  - eapply infix_of_trans; [apply prefix_infix, slice_to_prefix | apply section_at_infix].
  - intros c Hc. apply (prefix_head _ _ _ (slice_to_prefix _ _)) in Hc.
    unfold section_at in Hc. exact (strip_head _ _ Hc).
Qed.

(** X6: in the empty text no section is found, whatever the patterns. *)
Theorem extract_section_empty_text (patterns : list regex) (max_chars : Z) :
  extract_section_by_pattern [] patterns max_chars = None.
Proof.
  unfold extract_section_by_pattern. generalize (lower []). intros text_lower.
  induction patterns as [|p patterns IH]; [reflexivity|].
  cbn [section_loop]. destruct (re_search p text_lower) as [[a b]|]; [|exact IH].
  unfold section_at, slice. rewrite drop_nil, take_nil. reflexivity.
Qed.

End SectionsMore.

Lemma find_end_references (rest_lower : str) (start_pos end_pos : nat) :
  Forall (λ c, in_range (ch "A") (ch "Z") c = false) rest_lower →
  contains references_header
    (take (find_end end_patterns rest_lower start_pos end_pos - start_pos) rest_lower)
  = false.
Proof.
  intros Hlow. unfold end_patterns. cbn [find_end].
  replace (re_search caps_heading rest_lower) with (@None (nat * nat))
    by (symmetry; apply caps_heading_needs_capital, Hlow).
  change (heading "references") with (lit references_header).
  destruct (re_search (lit references_header) rest_lower) as [[i e]|] eqn:E.
  - replace (start_pos + i - start_pos) with i by lia.
    eapply re_search_lit_before; [discriminate | exact E].
  - apply re_search_lit_None in E. apply not_true_is_false. intros H.
    apply (contains_infix _ _ _ (take_infix _ _)) in H. congruence.
Qed.

(** X7: in a text of ASCII characters, which [str.lower] lowers one by
    one, no section that is returned holds the header of the references, a
    line of its own reading "references" in any case: the section ends
    before the first one behind its start. *)
Theorem extract_section_stops_at_references {U : UnicodeData} (text : str)
    (patterns : list regex) (max_chars : Z) (section : str) :
  Forall (λ c, (c < 128)%N) text →
  (∀ s, Forall (λ c, (c < 128)%N) s → lower s = map ascii_lower_char s) →
  extract_section_by_pattern text patterns max_chars = Some section →
  contains references_header (lower section) = false.
Proof.
  intros Hascii Hlower H. apply section_loop_Some in H as (p & [a b] & _ & _ & ->).
  rewrite (Hlower text Hascii). cbn [snd].
  set (tl := map ascii_lower_char text).
  set (e := find_end end_patterns (drop b tl) b (length text)).
  assert (Hin : infix_of (slice_to (section_at text tl b) max_chars)
                         (slice text b e)).
  { eapply infix_of_trans; [apply prefix_infix, slice_to_prefix | apply strip_infix]. }
  rewrite Hlower.
  2:{ apply Forall_forall. intros c Hc. rewrite Forall_forall in Hascii. apply Hascii.
      eapply infix_of_elem; [|exact Hc].
      eapply infix_of_trans; [exact Hin | apply slice_infix]. }
  apply not_true_is_false. intros H.
  destruct Hin as (l & r & Hin).
  apply (contains_infix _ _ (map ascii_lower_char (slice text b e))) in H.
  - unfold slice in H.
    change (map ascii_lower_char) with (fmap (M := list) ascii_lower_char) in H.
    rewrite fmap_take, fmap_drop in H.
    change (fmap (M := list) ascii_lower_char text) with tl in H.
    unfold e in H. rewrite find_end_references in H; [discriminate|].
    apply Forall_drop, ascii_lower_no_capital.
  - exists (map ascii_lower_char l), (map ascii_lower_char r).
    rewrite Hin. rewrite !map_app. reflexivity.
Qed.

(** X5 and X7 on the text with a list of references: the introduction ends
    before the header. *)
Lemma extract_section_piece_witness :
  extract_section_by_pattern (U := ascii_data) example_refs [heading "introduction"] 1500
  = Some (cps "This paper studies X.")
  ∧ infix_of (cps "This paper studies X.") example_refs.
Proof.
  assert (H : extract_section_by_pattern (U := ascii_data) example_refs
                [heading "introduction"] 1500 = Some (cps "This paper studies X."))
    by (vm_compute; reflexivity).
  split; [exact H|].
  apply (extract_section_piece (U := ascii_data) _ _ _ _ H).
Defined.

Lemma extract_section_stops_at_references_witness :
  Forall (λ c, (c < 128)%N) example_refs
  ∧ (∀ s, Forall (λ c, (c < 128)%N) s
          → lower (UnicodeData := ascii_data) s = map ascii_lower_char s)
  ∧ extract_section_by_pattern (U := ascii_data) example_refs [heading "introduction"] 1500
    = Some (cps "This paper studies X.")
  ∧ contains references_header
      (lower (UnicodeData := ascii_data) (cps "This paper studies X.")) = false.
Proof.
  assert (Hascii : Forall (λ c, (c < 128)%N) example_refs)
    by (apply Forall_forall; intros c Hc; apply N.ltb_lt;
        apply (proj1 (forallb_forall (λ c, c <? 128)%N example_refs));
        [vm_compute; reflexivity | apply list_elem_of_In, Hc]).
  assert (Hlower : ∀ s, Forall (λ c, (c < 128)%N) s
                        → lower (UnicodeData := ascii_data) s = map ascii_lower_char s)
    by (intros s _; reflexivity).
  assert (H : extract_section_by_pattern (U := ascii_data) example_refs
                [heading "introduction"] 1500 = Some (cps "This paper studies X."))
    by (vm_compute; reflexivity).
  split; [exact Hascii|]. split; [exact Hlower|]. split; [exact H|].
  apply (extract_section_stops_at_references (U := ascii_data) _ _ _ _ Hascii Hlower H).
Defined.

(** ** The references extractor *)

Lemma join_length (sep : str) (parts : list str) :
  length (join sep parts) ≤ length (concat parts) + length sep * pred (length parts).
Proof.
  induction parts as [|p parts IH]; [simpl; lia|].
  destruct parts as [|q parts].
  - simpl. rewrite app_nil_r. lia.
  - change (join sep (p :: q :: parts)) with (p ++ sep ++ join sep (q :: parts)).
    change (concat (p :: q :: parts)) with (p ++ concat (q :: parts)).
    rewrite !length_app. simpl in IH |- *. lia.
Qed.

Lemma join_elem (sep : str) (parts : list str) c :
  c ∈ join sep parts → c ∈ sep ∨ ∃ p, p ∈ parts ∧ c ∈ p.
Proof.
  induction parts as [|p parts IH]; [intros H; apply elem_of_nil in H; destruct H|].
  destruct parts as [|q parts].
  - simpl. intros H. right. exists p. split; [apply list_elem_of_here | exact H].
  - change (join sep (p :: q :: parts)) with (p ++ sep ++ join sep (q :: parts)).
    rewrite !elem_of_app. intros [H | [H | H]].
    + right. exists p. split; [apply list_elem_of_here | exact H].
    + left. exact H.
    + destruct (IH H) as [Hs | (p' & Hp' & Hc)]; [left; exact Hs|].
      right. exists p'. split; [apply list_elem_of_further, Hp' | exact Hc].
Qed.

Lemma concat_length_filter (f : str → bool) (parts : list str) :
  length (concat (List.filter f parts)) ≤ length (concat parts).
Proof.
  induction parts as [|p parts IH]; simpl; [lia|].
  destruct (f p); simpl; rewrite !length_app; lia.
Qed.

Lemma concat_length_take (n : nat) (parts : list str) :
  length (concat (take n parts)) ≤ length (concat parts).
Proof.
  revert n. induction parts as [|p parts IH]; intros [|n]; simpl; try lia.
  rewrite !length_app. specialize (IH n). lia.
Qed.

Lemma concat_length_strip (parts : list str) :
  length (concat (map strip parts)) ≤ length (concat parts).
Proof.
  induction parts as [|p parts IH]; simpl; [lia|].
  rewrite !length_app. pose proof (infix_of_length _ _ (strip_infix p)). lia.
Qed.

Lemma concat_length_split (sep : N) (s : str) :
  length (concat (split_on sep s)) ≤ length s.
Proof.
  induction s as [|c s IH]; simpl; [lia|].
  destruct (c =? sep)%N; simpl; [lia|].
  destruct (split_on sep s); simpl in *; lia.
Qed.

Section References.
Context {U : UnicodeData}.

(** The lines of a section that count as references. *)
Lemma reference_lines_spec (ref_text : str) :
  let refs := take 5 (List.filter (λ line, (20 <? length line) && negb (isdigit line))
                                  (map strip (split_on NL ref_text))) in
  length refs ≤ 5
  ∧ Forall (λ line, 20 < length line ∧ isdigit line = false
                    ∧ infix_of line ref_text ∧ (NL ∉ line)) refs
  ∧ length (concat refs) ≤ length ref_text.
Proof.
  intros refs. split; [|split].
  - unfold refs. rewrite length_take. lia.
  - apply Forall_forall. intros line Hline.
    apply (λ H, elem_of_sublist _ _ _ H (sublist_take _ 5)) in Hline.
    apply list_elem_of_In, filter_In in Hline as [Hline Hkeep].
    apply list_elem_of_In, list_elem_of_fmap in Hline as (piece & -> & Hpiece).
    apply andb_true_iff in Hkeep as [Hlen Hdig].
    apply Nat.ltb_lt in Hlen. apply negb_true_iff in Hdig.
    pose proof (proj2 (split_on_pieces NL ref_text)) as H.
    rewrite Forall_forall in H. destruct (H piece Hpiece) as [Hin Hnl].
    repeat split; try assumption.
    + eapply infix_of_trans; [apply strip_infix | exact Hin].
    + intros Hc. apply strip_elem in Hc. exact (Hnl Hc).
  - unfold refs. etrans; [apply concat_length_take|].
    etrans; [apply concat_length_filter|].
    etrans; [apply concat_length_strip | apply concat_length_split].
Qed.

Lemma join_nil (sep : str) (parts : list str) :
  Forall (λ part, part ≠ []) parts → join sep parts = [] → parts = [].
Proof.
  intros Hall H. destruct parts as [|p parts]; [reflexivity|]. exfalso.
  inversion Hall as [|? ? Hp _]; subst. apply Hp.
  destruct parts; [exact H|].
  change (p ++ sep ++ join sep (l :: parts) = []) in H.
  apply app_eq_nil in H as [H _]. exact H.
Qed.

Lemma filter_nil_Forall {T} (f : T → bool) (l : list T) :
  List.filter f l = [] ↔ Forall (λ x, f x = false) l.
Proof.
  induction l as [|x l IH]; simpl; [split; [constructor | reflexivity]|].
  destruct (f x) eqn:E.
  - split; [discriminate | inversion 1; congruence].
  - rewrite IH. split; [constructor; assumption | inversion 1; assumption].
Qed.

(** X8: the references are null exactly when no section of references is
    found; they are the empty string, not null, exactly when a section is
    found in which no trimmed line is longer than 20 characters and not a
    number. *)
Theorem extract_references_null (text : str) :
  (extract_references text = None
   ↔ extract_section_by_pattern text ref_patterns 1500 = None)
  ∧ (extract_references text = Some []
     ↔ ∃ ref_text, extract_section_by_pattern text ref_patterns 1500 = Some ref_text
         ∧ Forall (λ piece, ¬ (20 < length (strip piece) ∧ isdigit (strip piece) = false))
                  (split_on NL ref_text)).
Proof.
  unfold extract_references.
  destruct (extract_section_by_pattern text ref_patterns 1500) as [ref_text|] eqn:E.
  2:{ split; [split; reflexivity|]. split; [discriminate|].
      intros (ref_text & H & _). discriminate. }
  apply extract_section_nonempty in E; [|lia].
  apply nonempty_true in E. rewrite E. split; [split; discriminate|].
  set (keep := λ line : str, (20 <? length line) && negb (isdigit line)).
  assert (Hkeep : ∀ line, keep line = false
                          ↔ ¬ (20 < length line ∧ isdigit line = false)).
  { intros line. unfold keep. rewrite andb_false_iff, negb_false_iff, Nat.ltb_ge.
    destruct (isdigit line); split.
    - intros _ [_ H]. discriminate.
    - intros _. right. reflexivity.
    - intros [H | H] [Hl _]; [lia | discriminate].
    - intros H. left. apply Nat.le_ngt. intros Hl. apply H. auto. }
  assert (Hnone : List.filter keep (map strip (split_on NL ref_text)) = []
                  ↔ Forall (λ piece, ¬ (20 < length (strip piece)
                                        ∧ isdigit (strip piece) = false))
                           (split_on NL ref_text)).
  { rewrite filter_nil_Forall, Forall_map.
    apply Forall_iff. intros piece. apply Hkeep. }
  split.
  - intros [= H]. exists ref_text. split; [reflexivity|]. apply Hnone.
    apply join_nil in H.
    + destruct (List.filter keep (map strip (split_on NL ref_text))) as [|line refs];
        [reflexivity | discriminate].
    + apply Forall_forall. intros line Hline.
      apply (λ H, elem_of_sublist _ _ _ H (sublist_take _ 5)) in Hline.
      apply list_elem_of_In, filter_In in Hline as [_ Hline].
      unfold keep in Hline. apply andb_true_iff in Hline as [Hlen _].
      apply Nat.ltb_lt in Hlen. intros ->. simpl in Hlen. lia.
  - intros (ref_text' & [= <-] & H). apply Hnone in H.
    fold keep. rewrite H. reflexivity.
Qed.

(** X9: the references that are returned are at most five lines of the
    text, each longer than 20 characters and not a number, joined by "; ":
    one line of at most 1508 characters. *)
Theorem extract_references_lines (text refs : str) :
  extract_references text = Some refs →
  (∃ lines, refs = join (cps "; ") lines ∧ length lines ≤ 5
     ∧ Forall (λ line, 20 < length line ∧ isdigit line = false
                       ∧ infix_of line text) lines)
  ∧ (NL ∉ refs)
  ∧ length refs ≤ 1508.
Proof.
  unfold extract_references.
  destruct (extract_section_by_pattern text ref_patterns 1500) as [ref_text|] eqn:E;
    [|discriminate].
  destruct (nonempty ref_text); [|discriminate]. intros [= <-].
  destruct (reference_lines_spec ref_text) as (Hfive & Hlines & Hsum).
  set (lines := take 5 _) in *.
  assert (Hcap : length ref_text ≤ 1500).
  { apply section_loop_Some in E as (p & span & _ & _ & ->).
    pose proof (slice_to_length (section_at text (lower text) span.2) 1500). lia. }
  assert (Hpiece : infix_of ref_text text).
  { apply section_loop_Some in E as (p & span & _ & _ & ->).
    eapply infix_of_trans; [apply prefix_infix, slice_to_prefix | apply section_at_infix]. }
  split; [|split].
  - exists lines. split; [reflexivity|]. split; [exact Hfive|].
    eapply Forall_impl; [exact Hlines|]. intros line (Hlen & Hdig & Hin & _).
    repeat split; try assumption. eapply infix_of_trans; eassumption.
  - intros H. apply join_elem in H as [H | (line & Hline & H)].
    + vm_compute in H. repeat (apply elem_of_cons in H as [H | H]; [discriminate|]).
      apply elem_of_nil in H. exact H.
    + rewrite Forall_forall in Hlines. destruct (Hlines line Hline) as (_ & _ & _ & Hnl).
      exact (Hnl H).
  - pose proof (join_length (cps "; ") lines) as Hj.
    change (length (cps "; ")) with 2 in Hj.
    assert (pred (length lines) ≤ 4) by lia. nia.
Qed.

End References.

(** X8 on a text whose list of references holds a short line and a page
    number only. *)
Lemma extract_references_null_witness :
  extract_section_by_pattern (U := ascii_data) example_short_refs ref_patterns 1500
  = Some (cps "1. Short.
12")
  ∧ extract_references (U := ascii_data) example_short_refs = Some [].
Proof.
  assert (H : extract_section_by_pattern (U := ascii_data) example_short_refs
                ref_patterns 1500 = Some (cps "1. Short.
12")) by (vm_compute; reflexivity).
  split; [exact H|].
  apply (proj2 (extract_references_null (U := ascii_data) example_short_refs)).
  eexists. split; [exact H|].
  repeat (apply List.Forall_cons; [intros [Hlen _]; vm_compute in Hlen; lia|]).
  apply List.Forall_nil.
Defined.

(** X9 on the text with a list of references: the page number and the
    short line are left out. *)
Lemma extract_references_lines_witness :
  extract_references (U := ascii_data) example_refs
  = Some (cps "1. Smith et al., 2020, a long citation line over twenty chars.; 3. Jones and Brown, 2021, another citation line that is long.")
  ∧ length (cps "1. Smith et al., 2020, a long citation line over twenty chars.; 3. Jones and Brown, 2021, another citation line that is long.") ≤ 1508.
Proof.
  assert (H : extract_references (U := ascii_data) example_refs
    = Some (cps "1. Smith et al., 2020, a long citation line over twenty chars.; 3. Jones and Brown, 2021, another citation line that is long."))
    by (vm_compute; reflexivity).
  split; [exact H|].
  apply (extract_references_lines (U := ascii_data) _ _ H).
Defined.

(** ** The figures extractor *)

(** A pattern whose matches all end with [c]: the character stands right
    before the text the continuation is given. *)
Lemma rmatch_needs_last {T} c r : ∀ (s : str) (k : str → option T) x,
  needs_last c r = true → rmatch r s k = Some x →
  ∃ s', (c :: s') `suffix_of` s ∧ k s' = Some x.
Proof.
  induction r as [|y|p|r1 IH1 r2 IH2|r1 IH1 r2 IH2|r1 IH1]; intros s k x Hr H;
    simpl in Hr; try discriminate.
  - apply N.eqb_eq in Hr as ->. simpl in H. destruct s as [|z s]; [discriminate|].
    destruct (N.eqb_spec z c) as [->|]; [|discriminate].
    exists s. split; [reflexivity | exact H].
  - simpl in H. apply rmatch_suffix in H as (s1 & Hs1 & H).
    apply IH2 in H as (s2 & Hs2 & H); [|exact Hr].
    exists s2. split; [etrans; eassumption | exact H].
  - apply andb_true_iff in Hr as [H1 H2]. simpl in H.
    apply or_else_Some in H as [H | [_ H]]; eauto.
Qed.

Lemma re_match_at_needs_last c r ma (s : str) len :
  needs_last c r = true → re_match_at r ma s = Some len →
  len ≤ length s ∧ last (take len s) = Some c.
Proof.
  intros Hr H. unfold re_match_at in H.
  apply rmatch_needs_last with (c := c) in H as (s' & [pre Hs] & H); [|exact Hr].
  assert (len = length pre + 1) as ->.
  { destruct (ma && _) in H; [discriminate|]. injection H as <-.
    rewrite Hs, length_app. simpl. lia. }
  rewrite Hs. split; [rewrite length_app; simpl; lia|].
  replace (pre ++ c :: s') with ((pre ++ [c]) ++ s') by (rewrite <- app_assoc; reflexivity).
  rewrite take_app_length' by (rewrite length_app; simpl; lia).
  apply last_snoc.
Qed.

(** What [re.findall] returns for such a pattern: pieces of the text that
    end with [c]. *)
Lemma findall_loop_needs_last c r : ∀ fuel ma (s : str),
  needs_last c r = true →
  Forall (λ m, infix_of m s ∧ last m = Some c) (findall_loop fuel r ma s).
Proof.
  induction fuel as [|fuel IH]; intros ma s Hr; [constructor|]. simpl.
  destruct (search_from r ma s 0) as [[i j]|] eqn:E; [|constructor].
  apply search_from_Some in E as (i' & len & Hi & -> & _ & Hm & _).
  simpl in Hi. subst i'. constructor.
  - split; [apply slice_infix|]. unfold slice.
    replace (i + len - i) with len by lia.
    eapply re_match_at_needs_last; eassumption.
  - eapply Forall_impl; [apply IH, Hr|]. intros m [Hin Hlast].
    split; [|exact Hlast]. eapply infix_of_trans; [exact Hin | apply drop_infix].
Qed.

Lemma re_findall_nil r (s : str) : re_findall r s = [] ↔ re_search r s = None.
Proof.
  unfold re_findall, re_search.
  destruct (2 * length s + 2) as [|fuel] eqn:Ef; [lia|]. simpl.
  destruct (search_from r false s 0) as [[i j]|]; split; congruence.
Qed.

Lemma search_from_needs_last c r : ∀ (s : str) ma i,
  needs_last c r = true → c ∉ s → search_from r ma s i = None.
Proof.
  intros s ma i Hr Hs.
  destruct (search_from r ma s i) as [[a b]|] eqn:E; [|reflexivity]. exfalso.
  apply search_from_Some in E as (j & len & _ & _ & _ & Hm & _).
  apply (re_match_at_needs_last c) in Hm as [_ Hlast]; [|exact Hr].
  apply Hs. apply last_Some_elem_of in Hlast.
  eapply infix_of_elem; [|exact Hlast].
  eapply infix_of_trans; [apply take_infix | apply drop_infix].
Qed.

Section Figures.
Context {U : UnicodeData}.

Lemma figure_patterns_end_with_period :
  Forall (λ p, needs_last (ch ".") p = true) figure_patterns.
Proof. repeat constructor. Qed.

Lemma figures_null_iff (text : str) :
  extract_figures_and_images text = None
  ↔ Forall (λ p, re_search p text = None) figure_patterns.
Proof.
  unfold extract_figures_and_images.
  rewrite <- (Forall_iff (λ p, re_findall p text = []))
    by (intros p; apply re_findall_nil).
  rewrite <- concat_map_nil.
  destruct (concat (map (λ pattern, re_findall pattern text) figure_patterns));
    split; congruence.
Qed.

(** X10: the figures are null exactly when none of the four patterns is
    found in the text. *)
Theorem extract_figures_null (text : str) :
  extract_figures_and_images text = None
  ↔ Forall (λ p, re_search p text = None) figure_patterns.
Proof. apply figures_null_iff. Qed.

(** X11: a text without a full stop gives no figures: a mention counts
    only up to the full stop that ends it. *)
Theorem extract_figures_need_period (text : str) :
  ch "." ∉ text → extract_figures_and_images text = None.
Proof.
  intros H. apply figures_null_iff.
  eapply Forall_impl; [apply figure_patterns_end_with_period|].
  intros p Hp. simpl in Hp. apply (search_from_needs_last (ch ".")); assumption.
Qed.

(** X12: the figures that are returned are between one and ten mentions
    joined by "; ", each a piece of the text that ends with a full stop. *)
Theorem extract_figures_mentions (text figures : str) :
  extract_figures_and_images text = Some figures →
  ∃ mentions, figures = join (cps "; ") mentions
    ∧ 1 ≤ length mentions ≤ 10
    ∧ Forall (λ m, infix_of m text ∧ last m = Some (ch ".")) mentions.
Proof.
  unfold extract_figures_and_images.
  set (figure_info := concat _).
  assert (Hall : Forall (λ m, infix_of m text ∧ last m = Some (ch ".")) figure_info).
  { unfold figure_info. apply Forall_concat, Forall_fmap.
    eapply Forall_impl; [apply figure_patterns_end_with_period|].
    intros p Hp. apply findall_loop_needs_last, Hp. }
  destruct figure_info as [|m info] eqn:E; [discriminate|]. intros [= <-].
  exists (take 10 (m :: info)). split; [reflexivity|]. split.
  - rewrite length_take. cbn [length]. lia.
  - apply Forall_take, Hall.
Qed.

End Figures.

(** X11 and X12 on texts that mention figures, with and without the full
    stop. *)
Lemma extract_figures_need_period_witness :
  (ch "." ∉ cps "See Figure 1: the layout")
  ∧ extract_figures_and_images (U := ascii_data) (cps "See Figure 1: the layout") = None.
Proof.
  assert (H : ch "." ∉ cps "See Figure 1: the layout").
  { intros H. vm_compute in H.
    repeat (apply elem_of_cons in H as [H | H]; [discriminate|]).
    apply elem_of_nil in H. exact H. }
  split; [exact H | apply (extract_figures_need_period (U := ascii_data) _ H)].
Defined.

Lemma extract_figures_mentions_witness :
  extract_figures_and_images (U := ascii_data) example_figures
  = Some (cps "Figure 1: the layout.; Table 2. Counts by group.")
  ∧ ∃ mentions, cps "Figure 1: the layout.; Table 2. Counts by group."
                = join (cps "; ") mentions
      ∧ 1 ≤ length mentions ≤ 10
      ∧ Forall (λ m, infix_of m example_figures ∧ last m = Some (ch ".")) mentions.
Proof.
  assert (H : extract_figures_and_images (U := ascii_data) example_figures
              = Some (cps "Figure 1: the layout.; Table 2. Counts by group."))
    by (vm_compute; reflexivity).
  split; [exact H | apply (extract_figures_mentions (U := ascii_data) _ _ H)].
Defined.

(** ** More on the orchestrator and the pipeline *)

Ltac lookup_key :=
  repeat (rewrite lookup_insert_ne by (vm_compute; discriminate));
  first [rewrite lookup_insert_eq | rewrite lookup_empty].

Lemma or_default_nonempty (x : option str) (fallback : str) :
  fallback ≠ [] → or_default x fallback ≠ [].
Proof.
  intros H. destruct x as [s|]; simpl; [|exact H].
  destruct (nonempty s) eqn:E; [apply nonempty_true, E | exact H].
Qed.

Lemma optional_str_of_option (data : dict) (name : str) (o : option str) :
  data !! name = Some (of_option o) → optional_str data name = inr o.
Proof. intros H. unfold optional_str. rewrite H. destruct o; reflexivity. Qed.

Lemma get_opt_of_option (data : dict) (name : string) (o : option str) :
  data !! cps name = Some (of_option o) → get_opt data name = o.
Proof. intros H. unfold get_opt. rewrite (optional_str_of_option _ _ o H). reflexivity. Qed.

Lemma get_str_of_lookup (data : dict) (name : string) (s : str) :
  data !! cps name = Some (VStr s) → get_str data name = s.
Proof. intros H. unfold get_str, required_str. rewrite H. reflexivity. Qed.

Lemma get_opt_absent (data : dict) (name : string) :
  data !! cps name = None → get_opt data name = None.
Proof. intros H. unfold get_opt, optional_str. rewrite H. reflexivity. Qed.

Section Pipeline.
Context {U : UnicodeData}.
Variable json_loads : str → result pyval.

Lemma title_loop_nonempty (lines : list str) : title_loop lines ≠ [].
Proof.
  induction lines as [|line rest IH]; [discriminate|].
  cbn [title_loop]. destruct (existsb _ skip_markers); [exact IH|].
  destruct (10 <? length line) eqn:E; [|exact IH].
  apply Nat.ltb_lt in E. intros ->. simpl in E. lia.
Qed.

(** X13: the orchestrator sets exactly seven keys, the four required fields
    and Further_Reading, Images and Further_Development; the other fields
    of the schema are never set by the heuristics. *)
Theorem extract_document_structure_keys (clean_text : str) (key : str) :
  is_Some (extract_document_structure clean_text !! key) ↔ key ∈ heuristic_fields.
Proof.
  unfold extract_document_structure, heuristic_fields. split.
  - intros H. rewrite !lookup_insert, lookup_empty in H.
    repeat (case_decide; [subst key; set_solver|]).
    destruct H as [? H]. discriminate.
  - intros H. repeat (apply elem_of_cons in H as [-> | H]);
      [lookup_key; eauto ..|].
    apply elem_of_nil in H. destruct H.
Qed.

(** X14: in the mapping of the orchestrator each of the four required
    fields is a string that is not empty. *)
Theorem extract_document_structure_nonempty (clean_text : str) :
  Forall (λ name, ∃ s, extract_document_structure clean_text !! name = Some (VStr s)
                       ∧ s ≠ []) required_fields.
Proof.
  unfold extract_document_structure, required_fields.
  repeat (apply List.Forall_cons; [eexists; split; [lookup_key; reflexivity|]|]);
    try apply List.Forall_nil.
  - apply title_loop_nonempty.
  - apply or_default_nonempty. discriminate.
  - apply or_default_nonempty. discriminate.
  - apply or_default_nonempty. discriminate.
Qed.

(** The record the pipeline ends in when no model takes part. *)
Lemma heuristic_record (raw_text : str) (use_llm : bool) :
  let clean_text := clean_pdf_text raw_text in
  extract_document_info json_loads (inr raw_text) use_llm None
  = inr {| document := extract_title clean_text;
           Introduction := default intro_not_found
             (extract_section_by_pattern clean_text intro_patterns 1500);
           Thoughts := default thoughts_not_found
             (extract_section_by_pattern clean_text thought_patterns 1500);
           Answers := default answers_not_found
             (extract_section_by_pattern clean_text answer_patterns 1500);
           Hallmarks := None;
           Further_Reading := extract_references clean_text;
           Images := extract_figures_and_images clean_text;
           Further_Development :=
             extract_section_by_pattern clean_text limitation_patterns 1000;
           Thoughts_I := None; Answers_I := None; Answers_II := None;
           Further_Thoughts := None; Ependymoma := None |}.
Proof.
  intros clean_text. unfold extract_document_info. cbn [bind].
  fold clean_text. rewrite andb_false_r. cbn [bind].
  unfold create_document_info.
  rewrite (proj2 (field_errors_nil _) (extract_document_structure_valid clean_text)).
  f_equal. unfold extract_document_structure.
  f_equal;
    first [ apply get_str_of_lookup; lookup_key; rewrite ?or_default_section; reflexivity
          | apply get_opt_of_option; lookup_key; reflexivity
          | apply get_opt_absent; lookup_key; reflexivity ].
Qed.

(** X15: without a model function the pipeline always ends in a record,
    whether the model was asked for or not: the title, the three sections
    or their fallback strings, what the extractors of the references, the
    figures and the limitations return, and null in every other field. *)
Theorem extract_document_info_heuristic_record (raw_text : str) (use_llm : bool) :
  let clean_text := clean_pdf_text raw_text in
  ∃ info, extract_document_info json_loads (inr raw_text) use_llm None = inr info
    ∧ document info = extract_title clean_text
    ∧ Introduction info = default (cps "Introduction section not found in document")
        (extract_section_by_pattern clean_text intro_patterns 1500)
    ∧ Thoughts info = default (cps "Methods/Discussion section not found in document")
        (extract_section_by_pattern clean_text thought_patterns 1500)
    ∧ Answers info = default (cps "Results/Conclusions section not found in document")
        (extract_section_by_pattern clean_text answer_patterns 1500)
    ∧ Further_Reading info = extract_references clean_text
    ∧ Images info = extract_figures_and_images clean_text
    ∧ Further_Development info
      = extract_section_by_pattern clean_text limitation_patterns 1000
    ∧ Hallmarks info = None ∧ Thoughts_I info = None ∧ Answers_I info = None
    ∧ Answers_II info = None ∧ Further_Thoughts info = None ∧ Ependymoma info = None.
Proof.
  intros clean_text. eexists. split; [apply heuristic_record|].
  repeat split.
Qed.

(** X16: when the enhancement fails with an exception that derives from
    [Exception], the pipeline ends as it does without a model; an exception
    that does not derive from it ([KeyboardInterrupt], [SystemExit],
    [GeneratorExit]) ends the pipeline and is raised by it. *)
Theorem extract_document_info_model_fails (raw_text : str) (f : str → result pyval) :
  (∀ e : Exception,
     enhance_body json_loads (extract_document_structure (clean_pdf_text raw_text))
       (clean_pdf_text raw_text) f = inl (Exc e) →
     extract_document_info json_loads (inr raw_text) true (Some f)
     = extract_document_info json_loads (inr raw_text) false None)
  ∧ (∀ b : BaseException,
     enhance_body json_loads (extract_document_structure (clean_pdf_text raw_text))
       (clean_pdf_text raw_text) f = inl (Base b) →
     extract_document_info json_loads (inr raw_text) true (Some f) = inl (Base b)).
Proof.
  split.
  - intros e H. unfold extract_document_info. cbn [bind].
    rewrite (enhance_falls_back _ _ _ _ _ H). reflexivity.
  - intros b H. unfold extract_document_info. cbn [bind].
    rewrite (enhance_lets_through _ _ _ _ _ H). reflexivity.
Qed.

(** Where lowercasing puts no newline into a text, no section is found
    behind the normalizer. *)
Lemma no_section_cleaned (raw_text : str) (patterns : list regex) (max_chars : Z) :
  (∀ s, NL ∉ s → NL ∉ lower s) →
  Forall (λ p, needs_first NL p = true) patterns →
  extract_section_by_pattern (clean_pdf_text raw_text) patterns max_chars = None.
Proof.
  intros Hlower Hpats. apply extract_section_not_found.
  eapply Forall_impl; [exact Hpats|]. intros p Hp. simpl in Hp.
  apply (re_search_needs_first NL); [exact Hp|].
  apply Hlower, clean_pdf_text_newline_free.
Qed.

(** X17: where lowercasing puts no newline into a text, the pipeline
    without a model finds no section in any document: Introduction,
    Thoughts and Answers are their fallback strings, the references and the
    limitations are null, and the title is the whole cleaned text or the
    sentinel. *)
Theorem extract_document_info_no_sections (raw_text : str) (use_llm : bool) :
  (∀ s, NL ∉ s → NL ∉ lower s) →
  ∃ info, extract_document_info json_loads (inr raw_text) use_llm None = inr info
    ∧ Introduction info = cps "Introduction section not found in document"
    ∧ Thoughts info = cps "Methods/Discussion section not found in document"
    ∧ Answers info = cps "Results/Conclusions section not found in document"
    ∧ Further_Reading info = None
    ∧ Further_Development info = None
    ∧ (document info = clean_pdf_text raw_text
       ∨ document info = cps "Document title not found").
Proof.
  intros Hlower. pose proof (heuristic_record raw_text use_llm) as Hrec.
  cbv zeta in Hrec. unfold extract_references in Hrec.
  rewrite !(no_section_cleaned raw_text) in Hrec by (auto; repeat constructor).
  eexists. split; [exact Hrec|].
  cbn [document Introduction Thoughts Answers Further_Reading Further_Development default].
  do 5 (split; [reflexivity|]).
  pose proof (title_loop_elem (take 20 (stripped_lines (clean_pdf_text raw_text)))) as H.
  unfold extract_title, stripped_lines in *.
  rewrite split_on_absent in * by apply clean_pdf_text_newline_free.
  cbn [map] in *. replace (strip (clean_pdf_text raw_text)) with (clean_pdf_text raw_text) in *
    by (unfold clean_pdf_text; symmetry; apply strip_idemp).
  destruct H as [H | H]; [right; exact H | left].
  apply (λ H, elem_of_sublist _ _ _ H (sublist_take _ 20)) in H.
  apply list_elem_of_In, filter_In in H as [H _].
  apply list_elem_of_In, list_elem_of_singleton in H. exact H.
Qed.

End Pipeline.

(** X16 on the example scenario with a model that answers in prose. *)
Lemma extract_document_info_model_fails_witness :
  enhance_body json_loads_flat
    (extract_document_structure (U := ascii_data) (clean_pdf_text (U := ascii_data) example_raw))
    (clean_pdf_text (U := ascii_data) example_raw) example_prose_model
  = inl (Exc (ValueError (cps "No valid JSON found in LLM response")))
  ∧ extract_document_info (U := ascii_data) json_loads_flat (inr example_raw) true
      (Some example_prose_model)
    = extract_document_info (U := ascii_data) json_loads_flat (inr example_raw) false None.
Proof.
  assert (H : enhance_body json_loads_flat
    (extract_document_structure (U := ascii_data) (clean_pdf_text (U := ascii_data) example_raw))
    (clean_pdf_text (U := ascii_data) example_raw) example_prose_model
    = inl (Exc (ValueError (cps "No valid JSON found in LLM response"))))
    by (vm_compute; reflexivity).
  split; [exact H|].
  apply (proj1 (extract_document_info_model_fails (U := ascii_data) json_loads_flat
                  example_raw example_prose_model) _ H).
Defined.

(** X17 with the ASCII tables, on the example scenario. *)
Lemma extract_document_info_no_sections_witness :
  (∀ s, NL ∉ s → NL ∉ lower (UnicodeData := ascii_data) s)
  ∧ ∃ info, extract_document_info (U := ascii_data) json_loads_flat (inr example_raw)
              false None = inr info
      ∧ Introduction info = cps "Introduction section not found in document"
      ∧ Thoughts info = cps "Methods/Discussion section not found in document"
      ∧ Answers info = cps "Results/Conclusions section not found in document"
      ∧ Further_Reading info = None
      ∧ Further_Development info = None
      ∧ (document info = clean_pdf_text (U := ascii_data) example_raw
         ∨ document info = cps "Document title not found").
Proof.
  split; [exact ascii_lower_no_newline|].
  apply (extract_document_info_no_sections (U := ascii_data) json_loads_flat
           example_raw false ascii_lower_no_newline).
Defined.

(** ** More on the enhancement merge *)

Lemma find_from_present c : ∀ (s : str) (i : Z),
  c ∈ s → (0 ≤ i)%Z → find_from c s i ≠ (-1)%Z.
Proof.
  induction s as [|x s IH]; intros i Hc Hi; [apply elem_of_nil in Hc; destruct Hc|].
  simpl. destruct (N.eqb_spec x c) as [->|Hne]; [lia|].
  apply elem_of_cons in Hc as [-> | Hc]; [congruence|]. apply IH; [exact Hc | lia].
Qed.

Lemma find_from_first c (before rest : str) : ∀ i : Z,
  c ∉ before → find_from c (before ++ c :: rest) i = (i + Z.of_nat (length before))%Z.
Proof.
  induction before as [|x before IH]; intros i Hc.
  - cbn [app find_from length]. rewrite N.eqb_refl. lia.
  - apply not_elem_of_cons in Hc as [Hx Hc]. cbn [app find_from].
    destruct (N.eqb_spec x c); [congruence|]. rewrite IH by exact Hc.
    cbn [length]. lia.
Qed.

Lemma rfind_from_app c (l s : str) : ∀ i last : Z,
  rfind_from c (l ++ s) i last
  = rfind_from c s (i + Z.of_nat (length l))%Z (rfind_from c l i last).
Proof.
  induction l as [|x l IH]; intros i last.
  - cbn [app rfind_from length]. f_equal. lia.
  - cbn [app rfind_from length]. rewrite IH. f_equal. lia.
Qed.

Lemma rfind_from_absent c : ∀ (s : str) (i last : Z),
  c ∉ s → rfind_from c s i last = last.
Proof.
  induction s as [|x s IH]; intros i last Hc; [reflexivity|].
  apply not_elem_of_cons in Hc as [Hx Hc]. cbn [rfind_from].
  destruct (N.eqb_spec x c); [congruence|]. apply IH, Hc.
Qed.

Lemma rfind_from_below c : ∀ (l : str) (i last : Z),
  (last < i)%Z → (rfind_from c l i last < i + Z.of_nat (length l))%Z.
Proof.
  induction l as [|x l IH]; intros i last Hlast; cbn [rfind_from length]; [lia|].
  assert (H : ((if (x =? c)%N then i else last) < i + 1)%Z)
    by (destruct (x =? c)%N; lia).
  apply IH in H. lia.
Qed.

(** X18: the text handed to the decoder.  The brace check raises its
    [ValueError] exactly when the answer holds no opening brace, and raises
    nothing else.  Otherwise the content runs from the first opening brace
    of the answer to its last closing brace, both included, when a closing
    brace stands behind the first opening one, and is the empty text when
    none does. *)
Theorem json_content_spec (llm_response : str) :
  (json_content llm_response
   = inl (Exc (ValueError (cps "No valid JSON found in LLM response")))
   ↔ ch "{" ∉ llm_response)
  ∧ (∀ r, json_content llm_response = inl r →
       r = Exc (ValueError (cps "No valid JSON found in LLM response")))
  ∧ (∀ before rest, llm_response = before ++ ch "{" :: rest → ch "{" ∉ before →
       (ch "}" ∉ rest → json_content llm_response = inr [])
       ∧ (∀ inner behind, rest = inner ++ ch "}" :: behind → ch "}" ∉ behind →
            json_content llm_response = inr (ch "{" :: inner ++ [ch "}"]))).
Proof.
  unfold json_content. rewrite json_end_not_minus_one, andb_true_r.
  unfold str_find, str_rfind.
  split; [|split].
  - destruct (Z.eqb_spec (find_from (ch "{") llm_response 0) (-1)) as [E | E];
      cbn [negb].
    + split; [intros _ | reflexivity].
      intros Hc. exact (find_from_present _ _ 0%Z Hc (Z.le_refl 0) E).
    + split; [discriminate|].
      intros Hc. rewrite find_from_absent in E by exact Hc. congruence.
  - intros r. destruct (negb _); [discriminate | congruence].
  - intros before rest -> Hbefore.
    rewrite find_from_first by exact Hbefore. rewrite Z.add_0_l.
    replace (Z.of_nat (length before) =? -1)%Z with false
      by (symmetry; apply Z.eqb_neq; lia).
    cbn [negb]. rewrite Nat2Z.id. rewrite rfind_from_app, Z.add_0_l.
    pose proof (rfind_from_bound (ch "}") before 0 (-1) (Z.le_refl 0) (Z.le_refl (-1)))
      as Hlow.
    pose proof (rfind_from_below (ch "}") before 0 (-1) eq_refl) as Hhigh.
    set (r := rfind_from (ch "}") before 0 (-1)) in *.
    split.
    + intros Hrest. rewrite rfind_from_absent.
      * unfold slice. replace (Z.to_nat (r + 1) - length before) with 0 by lia.
        reflexivity.
      * apply not_elem_of_cons. split; [discriminate | exact Hrest].
    + intros inner behind -> Hbehind.
      change (ch "{" :: inner ++ ch "}" :: behind)
        with ((ch "{" :: inner) ++ ch "}" :: behind) at 2.
      rewrite rfind_from_app. cbn [rfind_from]. rewrite N.eqb_refl.
      rewrite rfind_from_absent by exact Hbehind.
      unfold slice. rewrite drop_app_length. f_equal.
      replace (ch "{" :: inner ++ ch "}" :: behind)
        with ((ch "{" :: inner ++ [ch "}"]) ++ behind)
        by (cbn [app]; rewrite <- app_assoc; reflexivity).
      apply take_app_length'. cbn [length]. rewrite length_app. cbn [length]. lia.
Qed.

Lemma merge_keeps_keys : ∀ (l : list (str * pyval)) (data : dict) (key : str),
  is_Some (data !! key) → is_Some (merge data l !! key).
Proof.
  induction l as [|[k v] l IH]; intros data key H; [exact H|].
  rewrite merge_cons. apply IH. destruct (kept v); [|exact H].
  rewrite lookup_insert. case_decide; eauto.
Qed.

Section EnhancementMore.
Context {U : UnicodeData}.
Variable json_loads : str → result pyval.

(** X19: the enhancement never drops a key.  It returns a mapping, and
    then what the heuristic mapping holds a value for the result holds a
    value for, or it lets through an exception of the model function that
    does not derive from [Exception]; without a model function it returns
    the mapping. *)
Theorem enhance_with_llm_keeps_keys (data : dict) (text : str)
    (llm_function : option (str → result pyval)) :
  (∃ out, enhance_with_llm json_loads data text llm_function = inr out
     ∧ ∀ key, is_Some (data !! key) → is_Some (out !! key))
  ∨ (∃ f b, llm_function = Some f
       ∧ enhance_body json_loads data text f = inl (Base b)
       ∧ enhance_with_llm json_loads data text llm_function = inl (Base b)).
Proof.
  destruct llm_function as [f|]; [|left; exists data; split; [reflexivity | auto]].
  unfold enhance_with_llm, try_except.
  destruct (enhance_body json_loads data text f) as [[e|b] | out] eqn:E.
  - left. exists data. split; [reflexivity | auto].
  - right. exists f, b. auto.
  - left. exists out. split; [reflexivity|].
    unfold enhance_body in E.
    destruct (model_data json_loads text f) as [|llm_data]; [discriminate|].
    cbn [bind] in E. destruct (items llm_data) as [|llm_items]; [discriminate|].
    injection E as <-. intros key. apply merge_keeps_keys.
Qed.

(** X20: a model that delivers, for a required field, a truthy value that
    is neither a string nor [bytes] nor a [bytearray] makes the pipeline end
    in a validation error that names the field. *)
Theorem extract_document_info_model_breaks (raw_text : str)
    (f : str → result pyval) (llm : dict) (name : str) (value : pyval) :
  model_data json_loads (clean_pdf_text raw_text) f = inr (VDict llm) →
  name ∈ required_fields →
  llm !! name = Some value →
  truthy value = true →
  (∀ s, value ≠ VStr s) → (∀ b, value ≠ VBytes b) → (∀ b, value ≠ VByteArray b) →
  ∃ errors, extract_document_info json_loads (inr raw_text) true (Some f)
            = inl (Exc (ValidationError errors))
    ∧ (name, StringType) ∈ errors.
Proof.
  intros Hmodel Hname Hvalue Htruthy Hstr Hbytes Hbytearray.
  unfold extract_document_info. cbn [bind].
  set (clean_text := clean_pdf_text raw_text) in *.
  set (data := extract_document_structure clean_text).
  replace (true && bool_decide (is_Some (Some f))) with true by reflexivity.
  assert (E : enhance_with_llm json_loads data clean_text (Some f)
              = inr (merge data (map_to_list llm))).
  { unfold enhance_with_llm, enhance_body. rewrite Hmodel. reflexivity. }
  rewrite E. cbn [bind].
  set (out := merge data (map_to_list llm)).
  assert (Hout : out !! name = Some value).
  { unfold out. rewrite merge_lookup, Hvalue. unfold kept. rewrite Htruthy.
    destruct value; try reflexivity. exfalso. eapply Hstr. reflexivity. }
  assert (Hin : (name, StringType) ∈ field_errors out).
  { unfold field_errors. apply elem_of_app. left.
    apply (elem_of_concat_map _ _ name); [exact Hname|].
    unfold required_str. rewrite Hout.
    destruct value; try apply list_elem_of_here; exfalso;
      [eapply Hstr | eapply Hbytes | eapply Hbytearray]; reflexivity. }
  exists (field_errors out). split; [|exact Hin].
  apply create_document_info_fails. intros Hnil. rewrite Hnil in Hin.
  apply elem_of_nil in Hin. exact Hin.
Qed.

End EnhancementMore.

(** X20 on a model whose title is the number 5. *)
Lemma extract_document_info_model_breaks_witness :
  ∃ errors, extract_document_info (U := ascii_data) json_loads_flat (inr example_raw) true
              (Some example_number_model) = inl (Exc (ValidationError errors))
    ∧ (cps "document", StringType) ∈ errors.
Proof.
  apply (extract_document_info_model_breaks (U := ascii_data) json_loads_flat example_raw
           example_number_model (<[cps "document" := VInt 5]> ∅) (cps "document") (VInt 5)).
  - reflexivity.
  - apply list_elem_of_here.
  - apply lookup_insert_eq.
  - reflexivity.
  - discriminate.
  - discriminate.
  - discriminate.
Defined.

(** ** More on validation *)

Lemma map_ext_Forall {T V} (f g : T → V) (l : list T) :
  Forall (λ x, f x = g x) l → map f l = map g l.
Proof. induction 1; simpl; congruence. Qed.

Lemma field_errors_insert (data : dict) (key : str) (value : pyval) :
  key ∉ required_fields ++ optional_fields →
  field_errors (<[key := value]> data) = field_errors data.
Proof.
  intros Hkey. apply not_elem_of_app in Hkey as [Hreq Hopt].
  unfold field_errors, required_str, optional_str. f_equal; f_equal;
    apply map_ext_Forall, Forall_forall; intros name Hname;
    rewrite lookup_insert_ne by (intros ->; auto); reflexivity.
Qed.

(** X21: a key that is no field of the schema takes no part in validation:
    with or without it the outcome is the same, record or error. *)
Theorem create_document_info_ignores (data : dict) (key : str) (value : pyval) :
  key ∉ required_fields ++ optional_fields →
  create_document_info (<[key := value]> data) = create_document_info data.
Proof.
  intros Hkey. unfold create_document_info.
  rewrite (field_errors_insert _ _ _ Hkey).
  destruct (field_errors data); [|reflexivity].
  assert (Hother : ∀ name : string,
            cps name ∈ required_fields ++ optional_fields →
            <[key := value]> data !! cps name = data !! cps name).
  { intros name Hname. apply lookup_insert_ne. intros ->. exact (Hkey Hname). }
  unfold get_str, get_opt, required_str, optional_str.
  rewrite !Hother by (unfold required_fields, optional_fields; set_solver).
  reflexivity.
Qed.

Lemma create_document_info_ignores_witness :
  (cps "confidence" ∉ required_fields ++ optional_fields)
  ∧ create_document_info (<[cps "confidence" := VInt 3]> example_empty_title)
    = create_document_info example_empty_title.
Proof.
  assert (H : cps "confidence" ∉ required_fields ++ optional_fields).
  { intros H. vm_compute in H.
    repeat (apply elem_of_cons in H as [H | H]; [discriminate|]).
    apply elem_of_nil in H. exact H. }
  split; [exact H | apply (create_document_info_ignores _ _ _ H)].
Defined.

Ltac dump_lookup := unfold model_dump; lookup_key; reflexivity.

Lemma model_dump_valid (info : DocumentInfo) : valid (model_dump info).
Proof.
  unfold valid, required_fields, optional_fields. split.
  - repeat (apply List.Forall_cons;
            [eexists _, _; split; [dump_lookup | apply reads_as_str]|]).
    apply List.Forall_nil.
  - repeat (apply List.Forall_cons;
            [right; unfold model_dump; lookup_key; apply valid_of_option|]).
    apply List.Forall_nil.
Qed.

(** X22: a record, written out as a mapping with [model_dump], validates
    back to the same record. *)
Theorem create_document_info_model_dump (info : DocumentInfo) :
  create_document_info (model_dump info) = inr info.
Proof.
  unfold create_document_info.
  rewrite (proj2 (field_errors_nil _) (model_dump_valid info)).
  destruct info. f_equal. f_equal;
    first [ apply get_str_of_lookup; dump_lookup
          | apply get_opt_of_option; dump_lookup ].
Qed.

(** ** The PDF reader *)

Lemma pages_text_concat (pages : list str) :
  pages_text pages = concat (map (λ page, page ++ [NL]) pages).
Proof.
  unfold pages_text.
  assert (H : ∀ acc, foldl (λ text page, text ++ page ++ [NL]) acc pages
                     = acc ++ concat (map (λ page, page ++ [NL]) pages)).
  { induction pages as [|p pages IH]; intros acc; simpl.
    - rewrite app_nil_r. reflexivity.
    - rewrite IH, <- !app_assoc. reflexivity. }
  apply (H []).
Qed.

Lemma strip_nonempty (s : str) :
  nonempty (strip s) = true ↔ ∃ c, c ∈ s ∧ isspace c = false.
Proof.
  rewrite nonempty_true, strip_nil. split.
  - intros H. apply not_Forall_Exists in H; [|intros c; apply _].
    apply Exists_exists in H as (c & Hc & Hsp).
    exists c. split; [exact Hc | apply not_true_is_false, Hsp].
  - intros (c & Hc & Hsp) H. rewrite Forall_forall in H.
    specialize (H c Hc). congruence.
Qed.

(** X23: the reader returns a text exactly when the path exists, the
    library delivers the pages and some page holds a character that is not
    whitespace; the text is the pages, each followed by a newline.  A
    document of blank pages, or of no page, is a [ValueError]; what the
    library raises is raised again. *)
Theorem read_pdf_file_spec (file_path : str) (path_exists : bool)
    (document : result (list str)) :
  (∀ text, read_pdf_file file_path path_exists document = inr text ↔
     path_exists = true
     ∧ ∃ pages, document = inr pages
         ∧ text = concat (map (λ page, page ++ [NL]) pages)
         ∧ ∃ c, c ∈ text ∧ isspace c = false)
  ∧ (path_exists = false →
     read_pdf_file file_path path_exists document
     = inl (OtherError (cps "PDF file not found: " ++ file_path)))
  ∧ (path_exists = true → ∀ e, document = inl e →
     read_pdf_file file_path path_exists document = inl e)
  ∧ (path_exists = true → ∀ pages, document = inr pages →
     Forall (Forall (λ c, isspace c = true)) pages →
     read_pdf_file file_path path_exists document
     = inl (ValueError (cps "Could not extract text from PDF file"))).
Proof.
  unfold read_pdf_file. destruct path_exists; cbn [negb].
  - destruct document as [e | pages]; cbn [bind try_except].
    + split; [|split; [discriminate | split; [intros _ e' [= <-]; destruct e; reflexivity|]]].
      * intros text. split; [destruct e; discriminate|].
        intros (_ & pages & H & _). discriminate.
      * intros _ pages H. discriminate.
    + rewrite pages_text_concat.
      set (text := concat (map (λ page, page ++ [NL]) pages)).
      destruct (nonempty (strip text)) eqn:E; cbn [negb try_except].
      * apply strip_nonempty in E as Hc.
        split; [|split; [discriminate | split; [intros _ e H; discriminate|]]].
        -- intros text'. split.
           ++ intros [= <-]. split; [reflexivity|]. exists pages. auto.
           ++ intros (_ & pages' & [= <-] & -> & _). reflexivity.
        -- intros _ pages' [= <-] Hblank. exfalso.
           destruct Hc as (c & Hc & Hsp). unfold text in Hc.
           apply list_elem_of_In, in_concat in Hc as (piece & Hpiece & Hc).
           apply in_map_iff in Hpiece as (page & <- & Hpage).
           apply in_app_or in Hc as [Hc | [<- | []]]; [|discriminate].
           rewrite Forall_forall in Hblank.
           apply list_elem_of_In in Hpage. specialize (Hblank page Hpage).
           rewrite Forall_forall in Hblank.
           apply list_elem_of_In in Hc. specialize (Hblank c Hc). congruence.
      * split; [|split; [discriminate | split; [intros _ e H; discriminate|]]].
        -- intros text'. split; [discriminate|].
           intros (_ & pages' & [= <-] & -> & Hc).
           apply strip_nonempty in Hc. fold text in Hc. congruence.
        -- intros _ pages' _ _. reflexivity.
  - split; [|split; [reflexivity | split; discriminate]].
    intros text. split; [discriminate | intros [H _]; discriminate].
Qed.

(** ** The report *)

Lemma preview_length (s : str) (n : nat) : length (preview s n) ≤ n + 3.
Proof.
  unfold preview. rewrite length_app, length_take.
  destruct (n <? length s); simpl; lia.
Qed.

Lemma preview_short (s : str) (n : nat) : length s ≤ n → preview s n = s.
Proof.
  intros H. unfold preview. rewrite take_ge by exact H.
  replace (n <? length s) with false by (symmetry; apply Nat.ltb_ge, H).
  apply app_nil_r.
Qed.

Lemma optional_line_spec (label : str) (field : option str) :
  (optional_line label field = []
   ∧ (field = None ∨ field = Some []))
  ∨ (∃ s, field = Some s ∧ s ≠ [] ∧ optional_line label field = [label ++ preview s 150]).
Proof.
  destruct field as [[|c s]|]; simpl; eauto 10.
Qed.

Ltac cps_length :=
  repeat match goal with
         | |- context [length (cps ?w)] =>
             let n := eval vm_compute in (length (cps w)) in
             change (length (cps w)) with n
         end.

(** X24: the report prints the title in full and a preview of every other
    field, so each line but the title's has at most 220 characters; it has
    seven lines and one more for each of Further_Reading, Images and
    Further_Development that is a string and not empty. *)
Theorem display_extraction_results_spec (doc_info : DocumentInfo) :
  let lines := display_extraction_results doc_info in
  let shown (field : option str) := match field with Some (_ :: _) => 1 | _ => 0 end in
  length lines = 7 + shown (Further_Reading doc_info) + shown (Images doc_info)
                 + shown (Further_Development doc_info)
  ∧ lines !! 3 = Some ([NL; 128196%N] ++ cps " Document: " ++ document doc_info)
  ∧ Forall (λ line, length line ≤ 220) (take 3 lines ++ drop 4 lines).
Proof.
  intros lines shown. unfold lines, display_extraction_results.
  split; [|split; [reflexivity|]].
  - rewrite !length_app. cbn [length].
    destruct (Further_Reading doc_info) as [[|? ?]|],
             (Images doc_info) as [[|? ?]|],
             (Further_Development doc_info) as [[|? ?]|]; reflexivity.
  - cbn [take drop app].
    do 3 (apply List.Forall_cons; [vm_compute; lia|]).
    pose proof (preview_length (Introduction doc_info) 200).
    pose proof (preview_length (Thoughts doc_info) 200).
    pose proof (preview_length (Answers doc_info) 200).
    do 3 (apply List.Forall_cons; [cbn [length]; rewrite length_app; cps_length; lia|]).
    repeat apply Forall_app_2;
      match goal with
      | |- Forall _ (optional_line ?label ?field) =>
          destruct (optional_line_spec label field) as [[-> _] | (s & _ & _ & ->)];
          [constructor | constructor; [|constructor]];
          pose proof (preview_length s 150);
          rewrite length_app; cbn [length]; cps_length; lia
      end.
Qed.

(** X23 on a document of two pages, the second one blank. *)
Lemma read_pdf_file_spec_witness :
  read_pdf_file (cps "paper.pdf") true (inr [cps "Page one"; [SP]])
  = inr (cps "Page one
 
").
Proof.
  apply (proj1 (read_pdf_file_spec (cps "paper.pdf") true (inr [cps "Page one"; [SP]]))).
  split; [reflexivity|]. exists [cps "Page one"; [SP]].
  split; [reflexivity|]. split; [reflexivity|].
  exists (ch "P"). split; [apply list_elem_of_here | reflexivity].
Defined.

(** X18 on an answer with prose around the object. *)
Lemma json_content_spec_witness :
  quoted "Sure: {'document': 'T'} Done."
  = cps "Sure: " ++ ch "{" :: (quoted "'document': 'T'" ++ ch "}" :: cps " Done.")
  ∧ (ch "{" ∉ cps "Sure: ")
  ∧ (ch "}" ∉ cps " Done.")
  ∧ json_content (quoted "Sure: {'document': 'T'} Done.")
    = inr (ch "{" :: quoted "'document': 'T'" ++ [ch "}"]).
Proof.
  assert (H1 : quoted "Sure: {'document': 'T'} Done."
               = cps "Sure: " ++ ch "{" :: (quoted "'document': 'T'" ++ ch "}" :: cps " Done."))
    by reflexivity.
  assert (H2 : ch "{" ∉ cps "Sure: ").
  { intros H. vm_compute in H. repeat (apply elem_of_cons in H as [H | H]; [discriminate|]).
    apply elem_of_nil in H. exact H. }
  assert (H3 : ch "}" ∉ cps " Done.").
  { intros H. vm_compute in H. repeat (apply elem_of_cons in H as [H | H]; [discriminate|]).
    apply elem_of_nil in H. exact H. }
  split; [exact H1|]. split; [exact H2|]. split; [exact H3|].
  apply (proj2 (proj2 (proj2 (json_content_spec _)) (cps "Sure: ") _ H1 H2)
           (quoted "'document': 'T'") (cps " Done.") eq_refl H3).
Defined.
